(** * The [reverse] operator of paddle/fluid/operators/reverse_op.cc

    A shallow embedding of the operator's shape inference
    ([ReverseOp::InferShape]), variable-type inference
    ([ReverseOpVarTypeInference]), gradient maker ([ReverseGradMaker::Apply])
    and of the kernel semantics documented by [ReverseOpMaker::Make],
    followed by the properties proved about them. *)

From Stdlib Require Import ZArith Lia.
From stdpp Require Import gmap strings list.

(** ** Host-framework interfaces consumed by the operator *)

Module Framework.

(** Modelled from the spec: the error taxonomy.  [InvalidArgument] and
    [OutOfRange] are the [platform::errors] constructors named in the file;
    [MissingBinding] is what [OP_INOUT_CHECK], a macro defined outside this
    file, raises: the specification calls it missing-binding. *)
Inductive ErrorKind : Set :=
  | MissingBinding
  | InvalidArgument
  | OutOfRange.

#[global] Instance ErrorKind_eq_dec : EqDecision ErrorKind.
Proof. solve_decision. Defined.

(** A computation either returns or throws: the enforce macros leave the
    function by an exception, so the first failing check decides the
    error. *)
Inductive Result (A : Type) : Type :=
  | Ok (a : A)
  | Raise (e : ErrorKind).
Arguments Ok {A} a.
Arguments Raise {A} e.

#[global] Instance Result_ret : MRet Result := fun _ a => Ok a.
#[global] Instance Result_bind : MBind Result := fun _ _ f m =>
  match m with
  | Ok a => f a
  | Raise e => Raise e
  end.

Definition succeeds {A} (m : Result A) : Prop :=
  match m with Ok _ => True | Raise _ => False end.

(** Modelled from the spec: the enforce macros, defined outside this file:
    continue when the comparison holds, throw the given error otherwise.
    The operands compared in this file are C++ [int]s (an axis entry, the
    rank and its negation), [size_t] sizes and [bool]s; none of the
    comparisons can wrap, so integers are [Z] and sizes are [nat]. *)
Definition PADDLE_ENFORCE (cond : bool) (e : ErrorKind) : Result unit :=
  if cond then Ok tt else Raise e.

(** Modelled from the spec: [PADDLE_ENFORCE_EQ(a, b, error)]. *)
Definition PADDLE_ENFORCE_EQ {A} `{EqDecision A} (a b : A) (e : ErrorKind)
  : Result unit := PADDLE_ENFORCE (bool_decide (a = b)) e.

(** Modelled from the spec: [PADDLE_ENFORCE_NE(a, b, error)]. *)
Definition PADDLE_ENFORCE_NE {A} `{EqDecision A} (a b : A) (e : ErrorKind)
  : Result unit := PADDLE_ENFORCE (negb (bool_decide (a = b))) e.

(** Modelled from the spec: [PADDLE_ENFORCE_LT(a, b, error)]. *)
Definition PADDLE_ENFORCE_LT (a b : Z) (e : ErrorKind) : Result unit :=
  PADDLE_ENFORCE (a <? b)%Z e.

(** Modelled from the spec: [PADDLE_ENFORCE_GE(a, b, error)]. *)
Definition PADDLE_ENFORCE_GE (a b : Z) (e : ErrorKind) : Result unit :=
  PADDLE_ENFORCE (a >=? b)%Z e.

(** Modelled from the spec: [OP_INOUT_CHECK(expr, role, name, op)], which
    fails with missing-binding when the binding is absent. *)
Definition OP_INOUT_CHECK (expr : bool) : Result unit :=
  PADDLE_ENFORCE_EQ expr true MissingBinding.

(** Modelled from the spec: [framework::proto::VarType], declared outside
    this file.  The two container variants the operator distinguishes: a
    dense tensor and a tensor list. *)
Inductive VarType : Set :=
  | LOD_TENSOR
  | LOD_TENSOR_ARRAY.

#[global] Instance VarType_eq_dec : EqDecision VarType.
Proof. solve_decision. Defined.

(** Modelled from the spec: the element dtypes, one per kernel registered
    at the end of the file: [int], [uint8_t], [int64_t], [bool], [float],
    [double]. *)
Inductive DataType : Set :=
  | INT32 | UINT8 | INT64 | BOOL | FP32 | FP64.

#[global] Instance DataType_eq_dec : EqDecision DataType.
Proof. solve_decision. Defined.

(** Modelled from the spec: [framework::DDim], declared outside this file:
    the ordered sequence of extents of a shape. *)
Definition DDim := list Z.

(** Modelled from the spec: [DDim::size()], the rank.  The file compares it
    with an [int] and negates it, so it is a signed integer. *)
Definition DDim_size (d : DDim) : Z := Z.of_nat (length d).

(** Modelled from the spec: the metadata the graph keeps per variable
    (variant kind, element dtype, shape, and the level count of the per-row
    length metadata); the descriptor class is declared outside this file. *)
Record VarDesc : Type := {
  var_type : VarType;
  var_dtype : DataType;
  var_dims : DDim;
  var_lod_level : nat
}.

(** Modelled from the spec: the three setters of the descriptor; each
    replaces one field. *)
Definition VarDesc_SetType (t : VarType) (d : VarDesc) : VarDesc :=
  {| var_type := t; var_dtype := var_dtype d;
     var_dims := var_dims d; var_lod_level := var_lod_level d |}.

Definition VarDesc_SetDataType (t : DataType) (d : VarDesc) : VarDesc :=
  {| var_type := var_type d; var_dtype := t;
     var_dims := var_dims d; var_lod_level := var_lod_level d |}.

Definition VarDesc_SetShape (s : DDim) (d : VarDesc) : VarDesc :=
  {| var_type := var_type d; var_dtype := var_dtype d;
     var_dims := s; var_lod_level := var_lod_level d |}.

(** Modelled from the spec: the variable a named slot of the operator is
    bound to: the first name listed for the slot, if any (the file reads
    [GetInputsVarType("X")[0]]). *)
Definition slot_var (slots : gmap string (list string)) (name : string)
  : option string := slots !! name ≫= head.

(** Modelled from the spec: [framework::InferShapeContext], the graph-build
    context: presence queries for named bindings, variant-kind queries, shape
    queries and assignments, the [axis] attribute and the runtime-vs-build
    flag.  Variables live in one store, so two slots may name the same
    variable.  [axis] is a required attribute of the operator
    ([AddAttr<std::vector<int>>] without a default), hence a field. *)
Record InferShapeContext : Type := {
  ctx_inputs : gmap string (list string);
  ctx_outputs : gmap string (list string);
  ctx_vars : gmap string VarDesc;
  ctx_axis : list Z;
  ctx_runtime : bool
}.

(** Modelled from the spec: the descriptor behind a named input or output
    of the context, if the slot is bound to a variable of the store. *)
Definition input_desc (ctx : InferShapeContext) (name : string)
  : option VarDesc := slot_var (ctx_inputs ctx) name ≫= (ctx_vars ctx !!.).

Definition output_desc (ctx : InferShapeContext) (name : string)
  : option VarDesc := slot_var (ctx_outputs ctx) name ≫= (ctx_vars ctx !!.).

(** Modelled from the spec: [HasInput] and [HasOutput], the presence
    queries. *)
Definition HasInput (ctx : InferShapeContext) (name : string) : bool :=
  bool_decide (is_Some (input_desc ctx name)).

Definition HasOutput (ctx : InferShapeContext) (name : string) : bool :=
  bool_decide (is_Some (output_desc ctx name)).

(** Modelled from the spec: [GetInputsVarType(name)[0]] and
    [GetInputDim(name)], the variant-kind and shape queries. *)
Definition GetInputsVarType (ctx : InferShapeContext) (name : string)
  : Result VarType :=
  match input_desc ctx name with
  | Some d => Ok (var_type d)
  | None => Raise MissingBinding
  end.

Definition GetInputDim (ctx : InferShapeContext) (name : string)
  : Result DDim :=
  match input_desc ctx name with
  | Some d => Ok (var_dims d)
  | None => Raise MissingBinding
  end.

(** Modelled from the spec: [IsRuntime], the runtime-vs-build flag. *)
Definition IsRuntime (ctx : InferShapeContext) : bool := ctx_runtime ctx.

(** Modelled from the spec: [SetOutputDim(name, dims)], the shape
    assignment: it replaces the shape of the variable bound to the slot and
    nothing else. *)
Definition with_vars (ctx : InferShapeContext) (vars : gmap string VarDesc)
  : InferShapeContext :=
  {| ctx_inputs := ctx_inputs ctx; ctx_outputs := ctx_outputs ctx;
     ctx_vars := vars; ctx_axis := ctx_axis ctx;
     ctx_runtime := ctx_runtime ctx |}.

Definition SetOutputDim (ctx : InferShapeContext) (name : string) (dims : DDim)
  : Result InferShapeContext :=
  match slot_var (ctx_outputs ctx) name with
  | Some v =>
      match ctx_vars ctx !! v with
      | Some d => Ok (with_vars ctx (<[v := VarDesc_SetShape dims d]> (ctx_vars ctx)))
      | None => Raise MissingBinding
      end
  | None => Raise MissingBinding
  end.

(** Modelled from the spec: [framework::InferVarTypeContext], the
    type-inference context: get and set the variant kind and the dtype of
    the variable bound to a named slot.  Same store as above. *)
Record InferVarTypeContext : Type := {
  vt_inputs : gmap string (list string);
  vt_outputs : gmap string (list string);
  vt_vars : gmap string VarDesc
}.

(** Modelled from the spec: the descriptor behind a named input or output
    of the type-inference context. *)
Definition vt_input_desc (ctx : InferVarTypeContext) (name : string)
  : option VarDesc := slot_var (vt_inputs ctx) name ≫= (vt_vars ctx !!.).

Definition vt_output_desc (ctx : InferVarTypeContext) (name : string)
  : option VarDesc := slot_var (vt_outputs ctx) name ≫= (vt_vars ctx !!.).

(** Modelled from the spec: [GetInputType] and [GetInputDataType], the
    variant-kind and dtype queries. *)
Definition GetInputType (ctx : InferVarTypeContext) (name : string)
  : Result VarType :=
  match vt_input_desc ctx name with
  | Some d => Ok (var_type d)
  | None => Raise MissingBinding
  end.

Definition GetInputDataType (ctx : InferVarTypeContext) (name : string)
  : Result DataType :=
  match vt_input_desc ctx name with
  | Some d => Ok (var_dtype d)
  | None => Raise MissingBinding
  end.

(** Modelled from the spec: [SetOutputType] and [SetOutputDataType]: each
    rewrites one field of the variable bound to the slot. *)
Definition vt_update_output (ctx : InferVarTypeContext) (name : string)
    (f : VarDesc → VarDesc) : Result InferVarTypeContext :=
  match slot_var (vt_outputs ctx) name with
  | Some v =>
      match vt_vars ctx !! v with
      | Some d =>
          Ok {| vt_inputs := vt_inputs ctx; vt_outputs := vt_outputs ctx;
                vt_vars := <[v := f d]> (vt_vars ctx) |}
      | None => Raise MissingBinding
      end
  | None => Raise MissingBinding
  end.

Definition SetOutputType (ctx : InferVarTypeContext) (name : string)
    (t : VarType) : Result InferVarTypeContext :=
  vt_update_output ctx name (VarDesc_SetType t).

Definition SetOutputDataType (ctx : InferVarTypeContext) (name : string)
    (t : DataType) : Result InferVarTypeContext :=
  vt_update_output ctx name (VarDesc_SetDataType t).

(** Modelled from the spec: the operator node the autodiff builder fills
    in ([framework::OpDesc], declared outside this file): a type name, named
    input and output slots, named attributes.  Attribute values are opaque
    to the builder, so their type is a parameter. *)
Record OpDesc (Attribute : Type) : Type := {
  op_type : string;
  op_inputs : gmap string (list string);
  op_outputs : gmap string (list string);
  op_attrs : gmap string Attribute
}.
Arguments op_type {Attribute} _.
Arguments op_inputs {Attribute} _.
Arguments op_outputs {Attribute} _.
Arguments op_attrs {Attribute} _.

Section OpDesc.
Context {Attribute : Type}.
Implicit Types op : OpDesc Attribute.

(** Modelled from the spec: a fresh node, and the fluent builder
    [SetType], [SetInput], [SetOutput], [SetAttr]. *)
Definition new_OpDesc : OpDesc Attribute :=
  {| op_type := ""; op_inputs := ∅; op_outputs := ∅; op_attrs := ∅ |}.

Definition SetType op (t : string) : OpDesc Attribute :=
  {| op_type := t; op_inputs := op_inputs op;
     op_outputs := op_outputs op; op_attrs := op_attrs op |}.

Definition SetInput op (name : string) (args : list string)
  : OpDesc Attribute :=
  {| op_type := op_type op; op_inputs := <[name := args]> (op_inputs op);
     op_outputs := op_outputs op; op_attrs := op_attrs op |}.

Definition SetOutput op (name : string) (args : list string)
  : OpDesc Attribute :=
  {| op_type := op_type op; op_inputs := op_inputs op;
     op_outputs := <[name := args]> (op_outputs op);
     op_attrs := op_attrs op |}.

Definition SetAttr op (name : string) (v : Attribute) : OpDesc Attribute :=
  {| op_type := op_type op; op_inputs := op_inputs op;
     op_outputs := op_outputs op;
     op_attrs := <[name := v]> (op_attrs op) |}.
End OpDesc.

(** Modelled from the spec: [framework::SingleGradOpMaker], the autodiff
    context: it holds the forward operator and gives the gradient variables
    of the forward outputs ([OutputGrad]) and the gradient slots of the
    forward inputs ([InputGrad]); how these are named is the engine's
    business, so both are fields. *)
Record SingleGradOpMaker (Attribute : Type) : Type := {
  fwd_op : OpDesc Attribute;
  OutputGrad : string → list string;
  InputGrad : string → list string
}.
Arguments fwd_op {Attribute} _.
Arguments OutputGrad {Attribute} _ _.
Arguments InputGrad {Attribute} _ _.

(** Modelled from the spec: [GetAttr(name)], the attribute pass-through
    from the forward operator. *)
Definition GetAttr {Attribute} (this : SingleGradOpMaker Attribute)
    (name : string) : option Attribute := op_attrs (fwd_op this) !! name.

End Framework.

(** ** The operator *)

Module ReverseOp.
Import Framework.

(** The body of [for (int a : axis)] in [InferShape]: two enforces per
    entry, in the order of the source. *)
Fixpoint check_axis (rank : Z) (axis : list Z) : Result unit :=
  match axis with
  | [] => Ok tt
  | a :: rest =>
      _ ← PADDLE_ENFORCE_LT a rank OutOfRange;
      _ ← PADDLE_ENFORCE_GE a (- rank)%Z OutOfRange;
      check_axis rank rest
  end.

(** [ReverseOp::InferShape]. *)
Definition InferShape (ctx : InferShapeContext) : Result InferShapeContext :=
  _ ← OP_INOUT_CHECK (HasInput ctx "X");
  _ ← OP_INOUT_CHECK (HasOutput ctx "Out");
  x_var_type ← GetInputsVarType ctx "X";
  let axis := ctx_axis ctx in
  if bool_decide (x_var_type = LOD_TENSOR_ARRAY) then
    _ ← PADDLE_ENFORCE_EQ (length axis) 1 InvalidArgument;
    _ ← PADDLE_ENFORCE_EQ (axis !! 0) (Some 0%Z) InvalidArgument;
    if negb (IsRuntime ctx) then
      x_dims ← GetInputDim ctx "X";
      SetOutputDim ctx "Out" x_dims
    else Ok ctx
  else
    x_dims ← GetInputDim ctx "X";
    _ ← PADDLE_ENFORCE_NE (bool_decide (axis = [])) true InvalidArgument;
    _ ← check_axis (DDim_size x_dims) axis;
    SetOutputDim ctx "Out" x_dims.

(** [ReverseOpVarTypeInference::operator()]. *)
Definition ReverseOpVarTypeInference (ctx : InferVarTypeContext)
  : Result InferVarTypeContext :=
  t ← GetInputType ctx "X";
  ctx ← SetOutputType ctx "Out" t;
  dt ← GetInputDataType ctx "X";
  SetOutputDataType ctx "Out" dt.

(** [ReverseGradMaker::Apply]: fills in the given backward node. *)
Definition Apply {Attribute} (this : SingleGradOpMaker Attribute)
    (grad_op : OpDesc Attribute) : option (OpDesc Attribute) :=
  let grad_op := SetType grad_op "reverse" in
  let grad_op := SetInput grad_op "X" (OutputGrad this "Out") in
  let grad_op := SetOutput grad_op "Out" (InputGrad this "X") in
  axis ← GetAttr this "axis";
  Some (SetAttr grad_op "axis" axis).

(** Modelled from the spec: the call operator of the single-node gradient
    maker, defined outside this file: it creates one fresh node, lets
    [Apply] fill it in and returns it as the only backward node. *)
Definition GradOpMaker_call {Attribute} (this : SingleGradOpMaker Attribute)
  : option (list (OpDesc Attribute)) :=
  grad_op ← Apply this new_OpDesc;
  Some [grad_op].

End ReverseOp.

(** ** The kernel *)

Module ReverseKernel.
Import Framework.

(** Modelled from the spec: the runtime values of the operator, declared
    outside this file.  A tensor has a shape (non-negative extents), per-row
    length metadata and a flat element buffer in row-major order; a tensor
    list is a finite sequence of tensors. *)
Definition LoD := list (list nat).

Record LoDTensor (T : Type) : Type := {
  dims : list nat;
  lod : LoD;
  data : list T
}.
Arguments dims {T} _.
Arguments lod {T} _.
Arguments data {T} _.

Definition LoDTensorArray (T : Type) : Type := list (LoDTensor T).

Inductive Value (T : Type) : Type :=
  | IsLoDTensor (x : LoDTensor T)
  | IsLoDTensorArray (x_arr : LoDTensorArray T).
Arguments IsLoDTensor {T} x.
Arguments IsLoDTensorArray {T} x_arr.

(** Modelled from the spec: the number of elements of a shape. *)
Fixpoint product (dims : list nat) : nat :=
  match dims with
  | [] => 1
  | d :: ds => d * product ds
  end.

(** Modelled from the spec: a tensor is well typed when its flat buffer
    holds one element per index tuple. *)
Definition well_typed {T} (x : LoDTensor T) : Prop :=
  length (data x) = product (dims x).

(** Modelled from the spec: an index tuple of a shape, [i_k < extent_k]
    for every [k]. *)
Definition in_bounds (dims idx : list nat) : Prop :=
  Forall2 (λ i d, i < d) idx dims.

(** Modelled from the spec: the row-major position of an index tuple in
    the flat buffer, and the index tuple of a position. *)
Fixpoint offset (dims idx : list nat) : nat :=
  match dims, idx with
  | _ :: ds, i :: idx' => i * product ds + offset ds idx'
  | _, _ => 0
  end.

Fixpoint index_of (dims : list nat) (p : nat) : list nat :=
  match dims with
  | [] => []
  | _ :: ds => p / product ds :: index_of ds (p `mod` product ds)
  end.

(** Modelled from the spec: the dense kernel of reverse_op.h, which is
    outside this file.  [A] is the set obtained by normalizing each entry of
    [axis] via [a < 0 ? a + rank : a]. *)
Definition normalize (rank : Z) (a : Z) : Z :=
  if (a <? 0)%Z then (a + rank)%Z else a.

(** Modelled from the spec: the set [A] of an [axis] attribute, and the
    test [k ∈ A]. *)
Definition axis_set (rank : nat) (axis : list Z) : gset Z :=
  list_to_set (normalize (Z.of_nat rank) <$> axis).

Definition reversed (A : gset Z) (k : nat) : bool :=
  bool_decide (Z.of_nat k ∈ A).

(** Modelled from the spec: [i'_k = extent_k - 1 - i_k] if [k ∈ A] else
    [i_k], for the components from position [k] on. *)
Fixpoint flip_from (sel : nat → bool) (k : nat) (dims idx : list nat)
  : list nat :=
  match dims, idx with
  | d :: ds, i :: idx' =>
      (if sel k then d - 1 - i else i) :: flip_from sel (S k) ds idx'
  | _, _ => []
  end.

Definition flip (A : gset Z) (dims idx : list nat) : list nat :=
  flip_from (reversed A) 0 dims idx.

(** Modelled from the spec: the output at [i] is the input at the index
    obtained by flipping the components in [A]; shape and per-row length
    metadata are copied. *)
Definition source (sel : nat → bool) (dims : list nat) (p : nat) : nat :=
  offset dims (flip_from sel 0 dims (index_of dims p)).

Definition gather {T} `{Inhabited T} (sel : nat → bool) (dims : list nat)
    (buf : list T) : list T :=
  (λ p, buf !!! source sel dims p) <$> seq 0 (product dims).

Definition reverse_tensor {T} `{Inhabited T} (x : LoDTensor T)
    (axis : list Z) : LoDTensor T :=
  {| dims := dims x;
     lod := lod x;
     data := gather (reversed (axis_set (length (dims x)) axis))
                    (dims x) (data x) |}.

(** Modelled from the spec: the tensor-list kernel: output position [k]
    holds the tensor originally at position [n - 1 - k]. *)
Definition reverse_array {T} (x_arr : LoDTensorArray T) : LoDTensorArray T :=
  rev x_arr.

(** Modelled from the spec: [reverse(X, axis)], dispatching on the variant
    of [X]. *)
Definition reverse {T} `{Inhabited T} (x : Value T) (axis : list Z)
  : Value T :=
  match x with
  | IsLoDTensorArray x_arr => IsLoDTensorArray (reverse_array x_arr)
  | IsLoDTensor x => IsLoDTensor (reverse_tensor x axis)
  end.

(** Modelled from the spec: the symmetric difference of two axis lists. *)
Definition symmetric_difference (A B : list Z) : list Z :=
  list_difference A B ++ list_difference B A.

(** Modelled from the spec: a value is well typed when its tensors are. *)
Definition value_well_typed {T} (x : Value T) : Prop :=
  match x with
  | IsLoDTensor x => well_typed x
  | IsLoDTensorArray x_arr => Forall well_typed x_arr
  end.

(** Modelled from the spec: the graph metadata of a variable agrees with
    the value it holds: same variant and, for a dense tensor, same shape. *)
Definition describes {T} (d : VarDesc) (x : Value T) : Prop :=
  match x with
  | IsLoDTensor x => var_type d = LOD_TENSOR ∧ var_dims d = Z.of_nat <$> dims x
  | IsLoDTensorArray _ => var_type d = LOD_TENSOR_ARRAY
  end.

End ReverseKernel.

(** ** Concrete scenarios *)

Module Scenarios.
Import Framework ReverseKernel.

Definition x_desc (t : VarType) (dims : DDim) : VarDesc :=
  {| var_type := t; var_dtype := FP32; var_dims := dims; var_lod_level := 0 |}.

Definition out_desc : VarDesc :=
  {| var_type := LOD_TENSOR; var_dtype := INT64; var_dims := [7%Z];
     var_lod_level := 1 |}.

(** A graph with [X] bound to variable [x] and [Out] bound to [out]. *)
Definition bound_ctx (t : VarType) (dims : DDim) (axis : list Z)
    (runtime : bool) : InferShapeContext :=
  {| ctx_inputs := {[ "X" := ["x"] ]};
     ctx_outputs := {[ "Out" := ["out"] ]};
     ctx_vars := {[ "x" := x_desc t dims; "out" := out_desc ]};
     ctx_axis := axis;
     ctx_runtime := runtime |}.

(** The same graph after [dims] has been assigned to [Out]. *)
Definition shaped_ctx (t : VarType) (dims : DDim) (axis : list Z)
    (runtime : bool) : InferShapeContext :=
  {| ctx_inputs := {[ "X" := ["x"] ]};
     ctx_outputs := {[ "Out" := ["out"] ]};
     ctx_vars := {[ "x" := x_desc t dims;
                    "out" := VarDesc_SetShape dims out_desc ]};
     ctx_axis := axis;
     ctx_runtime := runtime |}.

(** A graph in which [Out] is not bound. *)
Definition no_out_ctx (axis : list Z) : InferShapeContext :=
  {| ctx_inputs := {[ "X" := ["x"] ]};
     ctx_outputs := ∅;
     ctx_vars := {[ "x" := x_desc LOD_TENSOR [2%Z; 3%Z] ]};
     ctx_axis := axis;
     ctx_runtime := false |}.

(** Case 1 and Case 2 of the operator's documentation, as flat row-major
    buffers. *)
Definition case1_X : LoDTensor Z :=
  {| dims := [3; 5]; lod := [];
     data := [1; 2; 3; 4; 5; 6; 7; 8; 9; 10; 11; 12; 13; 14; 15]%Z |}.

Definition case1_Out : LoDTensor Z :=
  {| dims := [3; 5]; lod := [];
     data := [11; 12; 13; 14; 15; 6; 7; 8; 9; 10; 1; 2; 3; 4; 5]%Z |}.

Definition case2_X : LoDTensor Z :=
  {| dims := [2; 2; 4]; lod := [];
     data := [1; 2; 3; 4; 5; 6; 7; 8; 9; 10; 11; 12; 13; 14; 15; 16]%Z |}.

Definition case2_Out : LoDTensor Z :=
  {| dims := [2; 2; 4]; lod := [];
     data := [12; 11; 10; 9; 16; 15; 14; 13; 4; 3; 2; 1; 8; 7; 6; 5]%Z |}.

(** A type-inference context: [X] is a list of 64-bit integers, [Out] still
    carries other metadata, and a third variable is unrelated. *)
Definition vt_ctx : InferVarTypeContext :=
  {| vt_inputs := {[ "X" := ["x"] ]};
     vt_outputs := {[ "Out" := ["out"] ]};
     vt_vars := {[ "x" := {| var_type := LOD_TENSOR_ARRAY; var_dtype := INT64;
                             var_dims := [4%Z]; var_lod_level := 0 |};
                   "out" := {| var_type := LOD_TENSOR; var_dtype := FP32;
                               var_dims := [7%Z]; var_lod_level := 1 |};
                   "w" := {| var_type := LOD_TENSOR; var_dtype := BOOL;
                             var_dims := []; var_lod_level := 0 |} ]} |}.

(** A forward [reverse] node with [axis = [0, 2]], and an autodiff context
    that names gradients by appending [@GRAD]. *)
Definition forward_op : OpDesc (list Z) :=
  {| op_type := "reverse";
     op_inputs := {[ "X" := ["x"] ]};
     op_outputs := {[ "Out" := ["out"] ]};
     op_attrs := {[ "axis" := [0; 2]%Z ]} |}.

Definition grad_names (slots : gmap string (list string)) (name : string)
  : list string := (λ v, v +:+ "@GRAD") <$> default [] (slots !! name).

Definition forward_maker : SingleGradOpMaker (list Z) :=
  {| fwd_op := forward_op;
     OutputGrad := grad_names (op_outputs forward_op);
     InputGrad := grad_names (op_inputs forward_op) |}.

End Scenarios.

(** ** The operator's declaration *)

Module ReverseOpMaker.
Import Framework.

(** Modelled from the spec: the operator declaration that
    [framework::OpProtoAndCheckerMaker] builds (declared outside this file):
    the named inputs, outputs and attributes in the order they are added,
    each with its description, and the operator's comment.  An attribute
    records the C++ type it is declared with. *)
Record OpProto : Type := {
  proto_inputs : list (string * string);
  proto_outputs : list (string * string);
  proto_attrs : list (string * string * string);
  proto_comment : string
}.

(** Modelled from the spec: an empty declaration, and the four builder
    calls [AddInput], [AddOutput], [AddAttr<T>] and [AddComment]. *)
Definition new_OpProto : OpProto :=
  {| proto_inputs := []; proto_outputs := []; proto_attrs := [];
     proto_comment := "" |}.

Definition AddInput (p : OpProto) (name comment : string) : OpProto :=
  {| proto_inputs := proto_inputs p ++ [(name, comment)];
     proto_outputs := proto_outputs p; proto_attrs := proto_attrs p;
     proto_comment := proto_comment p |}.

Definition AddOutput (p : OpProto) (name comment : string) : OpProto :=
  {| proto_inputs := proto_inputs p;
     proto_outputs := proto_outputs p ++ [(name, comment)];
     proto_attrs := proto_attrs p; proto_comment := proto_comment p |}.

Definition AddAttr (cpp_type : string) (p : OpProto) (name comment : string)
  : OpProto :=
  {| proto_inputs := proto_inputs p; proto_outputs := proto_outputs p;
     proto_attrs := proto_attrs p ++ [(name, cpp_type, comment)];
     proto_comment := proto_comment p |}.

Definition AddComment (p : OpProto) (comment : string) : OpProto :=
  {| proto_inputs := proto_inputs p; proto_outputs := proto_outputs p;
     proto_attrs := proto_attrs p; proto_comment := comment |}.

(** The raw string literal passed to [AddComment]. *)
Definition DOC : string := "
      Reverse Operator.

      Reverse the order of elements in the input LoDTensor along given axises.

      Case 1:
        Given
            X = [[1, 2, 3, 4, 5]
                 [6, 7, 8, 9, 10]
                 [11, 12, 13, 14, 15]],
        and
            axis = [0],
        we get:
            Out = [[11, 12, 13, 14, 15]
                   [6, 7, 8, 9, 10]
                   [1, 2, 3, 4, 5]].
        
      Case 2:
        Given
            X = [[[1, 2, 3, 4]
                  [5, 6, 7, 8]]
                 [[9, 10, 11, 12]
                  [13, 14, 15, 16]]],
        and
            axis = [0, 2],
        we get:
            Out = [[[12, 11, 10, 9]
                    [16, 15, 14, 13]]
                   [[4, 3, 2, 1]
                    [8, 7, 6, 5]]],
    ".

(** [ReverseOpMaker::Make]. *)
Definition Make (p : OpProto) : OpProto :=
  let p := AddInput p "X" "The LoDTensor to be flipped." in
  let p := AddOutput p "Out" "The LoDTensor after flipping." in
  let p := AddAttr "std::vector<int>" p "axis"
             "The axises that along which order of elements is reversed." in
  AddComment p DOC.

(** The names a declaration lists. *)
Definition input_names (p : OpProto) : list string := fst <$> proto_inputs p.
Definition output_names (p : OpProto) : list string := fst <$> proto_outputs p.
Definition attr_names (p : OpProto) : list string :=
  (λ a, a.1.1) <$> proto_attrs p.

(** A node is an instance of a declaration when it sets exactly the declared
    inputs, outputs and attributes: none missing, none undeclared. *)
Definition instance_of {Attribute} (p : OpProto) (op : OpDesc Attribute)
  : Prop :=
  dom (op_inputs op) = list_to_set (input_names p)
  ∧ dom (op_outputs op) = list_to_set (output_names p)
  ∧ dom (op_attrs op) = list_to_set (attr_names p).

End ReverseOpMaker.

(** ** Views of the graph-build context *)

Module Views.
Import Framework.


(** The same graph in the other phase: graph construction or runtime. *)
Definition with_runtime (ctx : InferShapeContext) (runtime : bool)
  : InferShapeContext :=
  {| ctx_inputs := ctx_inputs ctx; ctx_outputs := ctx_outputs ctx;
     ctx_vars := ctx_vars ctx; ctx_axis := ctx_axis ctx;
     ctx_runtime := runtime |}.

(** The type-inference context over the same operator and the same store as
    a shape-inference context: both passes run on one graph. *)
Definition type_inference_view (ctx : InferShapeContext)
  : InferVarTypeContext :=
  {| vt_inputs := ctx_inputs ctx; vt_outputs := ctx_outputs ctx;
     vt_vars := ctx_vars ctx |}.

End Views.

(** ** Further scenarios *)

Module MoreScenarios.
Import Framework Scenarios.

(** An in-place node: [X] and [Out] are bound to the same variable. *)
Definition inplace_ctx (dims : DDim) (axis : list Z) (runtime : bool)
  : InferShapeContext :=
  {| ctx_inputs := {[ "X" := ["x"] ]};
     ctx_outputs := {[ "Out" := ["x"] ]};
     ctx_vars := {[ "x" := x_desc LOD_TENSOR dims ]};
     ctx_axis := axis;
     ctx_runtime := runtime |}.

(** The backward node of [bound_ctx]: its [X] is the gradient of the forward
    [Out], of the given shape; its [Out] is the gradient slot of the forward
    [X]. *)
Definition backward_ctx (t : VarType) (dims : DDim) (axis : list Z)
    (runtime : bool) : InferShapeContext :=
  {| ctx_inputs := {[ "X" := ["out@GRAD"] ]};
     ctx_outputs := {[ "Out" := ["x@GRAD"] ]};
     ctx_vars := {[ "out@GRAD" := x_desc t dims; "x@GRAD" := out_desc ]};
     ctx_axis := axis;
     ctx_runtime := runtime |}.

(** A type-inference context of an in-place node. *)
Definition inplace_vt_ctx : InferVarTypeContext :=
  {| vt_inputs := {[ "X" := ["x"] ]};
     vt_outputs := {[ "Out" := ["x"] ]};
     vt_vars := {[ "x" := {| var_type := LOD_TENSOR_ARRAY; var_dtype := INT64;
                             var_dims := [4%Z]; var_lod_level := 2 |} ]} |}.

(** A type-inference context in which [X] is not bound. *)
Definition no_x_vt_ctx : InferVarTypeContext :=
  {| vt_inputs := ∅;
     vt_outputs := {[ "Out" := ["out"] ]};
     vt_vars := {[ "out" := out_desc ]} |}.

(** The backward node emitted for [forward_op], and an autodiff context
    that differentiates it once more. *)
Definition backward_op : OpDesc (list Z) :=
  {| op_type := "reverse";
     op_inputs := {[ "X" := ["out@GRAD"] ]};
     op_outputs := {[ "Out" := ["x@GRAD"] ]};
     op_attrs := {[ "axis" := [0; 2]%Z ]} |}.

Definition backward_maker : SingleGradOpMaker (list Z) :=
  {| fwd_op := backward_op;
     OutputGrad := grad_names (op_outputs backward_op);
     InputGrad := grad_names (op_inputs backward_op) |}.

(** A forward node of another type with other tensors, whose gradient
    variables and [axis] are those of [forward_op]. *)
Definition other_forward_maker : SingleGradOpMaker (list Z) :=
  {| fwd_op := {| op_type := "reverse_grad";
                  op_inputs := {[ "X" := ["a"]; "Y" := ["b"] ]};
                  op_outputs := {[ "Out" := ["c"] ]};
                  op_attrs := {[ "axis" := [0; 2]%Z; "name" := [] ]} |};
     OutputGrad := grad_names (op_outputs forward_op);
     InputGrad := grad_names (op_inputs forward_op) |}.

(** A node that was filled in before [Apply] is called on it. *)
Definition stale_op : OpDesc (list Z) :=
  {| op_type := "scale";
     op_inputs := {[ "X" := ["old"]; "Bias" := ["b"] ]};
     op_outputs := {[ "Out" := ["old_out"] ]};
     op_attrs := {[ "axis" := [7]%Z ]} |}.

(** A forward node without an [axis] attribute. *)
Definition no_axis_maker : SingleGradOpMaker (list Z) :=
  {| fwd_op := {| op_type := "reverse";
                  op_inputs := {[ "X" := ["x"] ]};
                  op_outputs := {[ "Out" := ["out"] ]};
                  op_attrs := ∅ |};
     OutputGrad := λ _, [];
     InputGrad := λ _, [] |}.

End MoreScenarios.

(** * Properties *)

(** ** Shape inference *)

Section InferShapeFacts.
Import Framework ReverseOp.
Implicit Types (ctx : InferShapeContext) (axis : list Z) (rank : Z).

Lemma bind_Ok {A B} (a : A) (f : A → Result B) : (Ok a ≫= f) = f a.
Proof. reflexivity. Qed.

Lemma bind_Raise {A B} (e : ErrorKind) (f : A → Result B) :
  (Raise e ≫= f) = Raise e.
Proof. reflexivity. Qed.

Lemma enforce_true e : PADDLE_ENFORCE true e = Ok tt.
Proof. reflexivity. Qed.

Lemma enforce_false e : PADDLE_ENFORCE false e = Raise e.
Proof. reflexivity. Qed.

(** The loop over [axis] returns exactly when every entry is within
    [[-rank, rank)], and throws out-of-range otherwise. *)
Lemma check_axis_Ok rank axis :
  Forall (λ a, (- rank ≤ a < rank)%Z) axis → check_axis rank axis = Ok tt.
Proof.
  induction 1 as [|a rest [Hlo Hhi] _ IH]; [reflexivity|]. cbn [check_axis].
  unfold PADDLE_ENFORCE_LT, PADDLE_ENFORCE_GE.
  rewrite (proj2 (Z.ltb_lt a rank) Hhi), enforce_true, bind_Ok.
  rewrite (proj2 (Z.geb_le a (- rank)) Hlo), enforce_true, bind_Ok.
  exact IH.
Qed.

Lemma check_axis_Raise rank axis :
  ¬ Forall (λ a, (- rank ≤ a < rank)%Z) axis →
  check_axis rank axis = Raise OutOfRange.
Proof.
  induction axis as [|a rest IH]; intros Hbad.
  { destruct Hbad. constructor. }
  cbn [check_axis]. unfold PADDLE_ENFORCE_LT, PADDLE_ENFORCE_GE.
  destruct (Z.ltb_spec a rank) as [Hlt|Hge]; [|done].
  rewrite enforce_true, bind_Ok.
  destruct (Z.geb_spec a (- rank)) as [Hlo|Hlo]; [|done].
  rewrite enforce_true, bind_Ok. apply IH.
  intros Hrest. apply Hbad. constructor; [lia | done].
Qed.

Lemma check_axis_spec rank axis :
  check_axis rank axis =
    if bool_decide (Forall (λ a, (- rank ≤ a < rank)%Z) axis)
    then Ok tt else Raise OutOfRange.
Proof.
  case_bool_decide; [by apply check_axis_Ok | by apply check_axis_Raise].
Qed.

Lemma HasInput_Some ctx name d :
  input_desc ctx name = Some d → HasInput ctx name = true.
Proof. intros H. unfold HasInput. rewrite H. by apply bool_decide_eq_true_2. Qed.

Lemma HasOutput_Some ctx name d :
  output_desc ctx name = Some d → HasOutput ctx name = true.
Proof. intros H. unfold HasOutput. rewrite H. by apply bool_decide_eq_true_2. Qed.

Lemma HasInput_false ctx name :
  HasInput ctx name = false ↔ input_desc ctx name = None.
Proof.
  unfold HasInput. rewrite bool_decide_eq_false, <- eq_None_not_Some. done.
Qed.

Lemma HasOutput_false ctx name :
  HasOutput ctx name = false ↔ output_desc ctx name = None.
Proof.
  unfold HasOutput. rewrite bool_decide_eq_false, <- eq_None_not_Some. done.
Qed.

Lemma output_desc_Some ctx name d :
  output_desc ctx name = Some d ↔
  ∃ v, slot_var (ctx_outputs ctx) name = Some v ∧ ctx_vars ctx !! v = Some d.
Proof. unfold output_desc. by rewrite bind_Some. Qed.

(** What assigning a shape to a bound output does to the store. *)
Lemma SetOutputDim_bound ctx name v d dims :
  slot_var (ctx_outputs ctx) name = Some v →
  ctx_vars ctx !! v = Some d →
  SetOutputDim ctx name dims =
    Ok (with_vars ctx (<[v := VarDesc_SetShape dims d]> (ctx_vars ctx))).
Proof. intros Hv Hd. unfold SetOutputDim. by rewrite Hv, Hd. Qed.

Lemma SetOutputDim_succeeds ctx name d dims :
  output_desc ctx name = Some d → succeeds (SetOutputDim ctx name dims).
Proof.
  rewrite output_desc_Some. intros (v & Hv & Hd).
  by rewrite (SetOutputDim_bound _ _ _ _ _ Hv Hd).
Qed.

Lemma SetOutputDim_output ctx ctx' name dims :
  SetOutputDim ctx name dims = Ok ctx' →
  var_dims <$> output_desc ctx' name = Some dims.
Proof.
  unfold SetOutputDim, output_desc.
  destruct (slot_var (ctx_outputs ctx) name) as [v|] eqn:Hv; [|done].
  destruct (ctx_vars ctx !! v) as [d|] eqn:Hd; [|done].
  intros [= <-]. simpl. rewrite Hv. simpl. by rewrite lookup_insert_eq.
Qed.

(** [InferShape] in closed form once [X] and [Out] are bound. *)
Lemma InferShape_bound ctx dx dout :
  input_desc ctx "X" = Some dx →
  output_desc ctx "Out" = Some dout →
  InferShape ctx =
    if bool_decide (var_type dx = LOD_TENSOR_ARRAY) then
      if bool_decide (ctx_axis ctx = [0%Z]) then
        if ctx_runtime ctx then Ok ctx
        else SetOutputDim ctx "Out" (var_dims dx)
      else Raise InvalidArgument
    else
      if bool_decide (ctx_axis ctx = []) then Raise InvalidArgument
      else if bool_decide (Forall (λ a, (- DDim_size (var_dims dx) ≤ a
                                         < DDim_size (var_dims dx))%Z)
                                  (ctx_axis ctx))
      then SetOutputDim ctx "Out" (var_dims dx)
      else Raise OutOfRange.
Proof.
  intros HX HOut. unfold InferShape, OP_INOUT_CHECK, PADDLE_ENFORCE_EQ,
    PADDLE_ENFORCE_NE, GetInputsVarType, GetInputDim, IsRuntime.
  rewrite (HasInput_Some _ _ _ HX), (HasOutput_Some _ _ _ HOut), HX.
  rewrite (bool_decide_eq_true_2 (true = true)) by done.
  rewrite enforce_true, !bind_Ok.
  case_bool_decide as Hty.
  - destruct (ctx_axis ctx) as [|a [|b rest]] eqn:Haxis; cbn [length lookup list_lookup].
    + by rewrite bool_decide_eq_false_2.
    + rewrite (bool_decide_eq_true_2 (1 = 1)), enforce_true, bind_Ok by done.
      destruct (decide (a = 0%Z)) as [->|Hne].
      * rewrite !bool_decide_eq_true_2, enforce_true, bind_Ok by done.
        by destruct (ctx_runtime ctx).
      * rewrite (bool_decide_eq_false_2 (Some a = Some 0%Z)) by congruence.
        rewrite bool_decide_eq_false_2; [done | congruence].
    + rewrite (bool_decide_eq_false_2 (_ :: _ = _)); [done | congruence].
  - rewrite check_axis_spec.
    destruct (bool_decide (ctx_axis ctx = [])) eqn:Hempty.
    + by rewrite (bool_decide_eq_true_2 (true = true)).
    + rewrite (bool_decide_eq_false_2 (false = true)) by done.
      cbn [negb]. rewrite enforce_true, bind_Ok. by destruct (bool_decide (Forall _ _)).
Qed.

(** [InferShape] throws missing-binding when a binding is absent. *)
Lemma InferShape_unbound ctx :
  HasInput ctx "X" = false ∨ HasOutput ctx "Out" = false →
  InferShape ctx = Raise MissingBinding.
Proof.
  intros H. unfold InferShape, OP_INOUT_CHECK, PADDLE_ENFORCE_EQ.
  destruct (HasInput ctx "X"); simpl; [|done].
  destruct H as [H|H]; [done|]. by rewrite H.
Qed.

End InferShapeFacts.

Section InferShapeClaims.
Import Framework ReverseOp Scenarios.
Implicit Types (ctx : InferShapeContext) (dx : VarDesc).

(** C1. For a dense tensor input (with [X] and [Out] bound), [InferShape]
    accepts the [axis] attribute if and only if it is non-empty and every
    entry [a] satisfies [-rank <= a < rank]; an empty [axis] throws
    invalid-argument, an [axis] with an entry [a >= rank] or [a < -rank]
    throws out-of-range, and an in-range [axis] with duplicate entries is
    accepted. *)
Theorem dense_axis_validation ctx dx :
  input_desc ctx "X" = Some dx →
  HasOutput ctx "Out" = true →
  var_type dx = LOD_TENSOR →
  let rank := DDim_size (var_dims dx) in
  let axis := ctx_axis ctx in
  (succeeds (InferShape ctx) ↔
     axis ≠ [] ∧ Forall (λ a, (- rank ≤ a < rank)%Z) axis)
  ∧ (axis = [] → InferShape ctx = Raise InvalidArgument)
  ∧ (Exists (λ a, (rank ≤ a ∨ a < - rank)%Z) axis →
       InferShape ctx = Raise OutOfRange)
  ∧ (axis ≠ [] → Forall (λ a, (- rank ≤ a < rank)%Z) axis →
       ¬ NoDup axis → succeeds (InferShape ctx)).
Proof.
  intros HX HOut Hty rank axis.
  unfold HasOutput in HOut. apply bool_decide_eq_true_1 in HOut as [dout HOut].
  pose proof (SetOutputDim_succeeds ctx "Out" dout (var_dims dx) HOut) as Hset.
  rewrite (InferShape_bound ctx dx dout HX HOut).
  rewrite bool_decide_eq_false_2 by (rewrite Hty; discriminate).
  fold rank axis.
  assert (Hok : axis ≠ [] → Forall (λ a, (- rank ≤ a < rank)%Z) axis →
    succeeds (if bool_decide (axis = []) then Raise InvalidArgument
              else if bool_decide (Forall (λ a, (- rank ≤ a < rank)%Z) axis)
                   then SetOutputDim ctx "Out" (var_dims dx)
                   else Raise OutOfRange)).
  { intros Hne Hall. by rewrite bool_decide_eq_false_2, bool_decide_eq_true_2. }
  split_and!.
  - split; [|intros []; by apply Hok].
    case_bool_decide as Hempty; [done|]. case_bool_decide as Hall; done.
  - intros ->. by rewrite bool_decide_eq_true_2.
  - intros Hex.
    rewrite bool_decide_eq_false_2 by (intros ->; by apply Exists_nil in Hex).
    rewrite bool_decide_eq_false_2; [done|].
    intros Hall. apply Exists_exists in Hex as (a & Ha & Hbad).
    rewrite Forall_forall in Hall. specialize (Hall a Ha). simpl in Hall. lia.
  - intros Hne Hall _. by apply Hok.
Qed.

Lemma dense_axis_validation_witness :
  let ctx := bound_ctx LOD_TENSOR [2; 3]%Z [1; -2; 1]%Z false in
  ¬ NoDup (ctx_axis ctx) ∧ succeeds (InferShape ctx).
Proof.
  intros ctx.
  assert (Hdup : ¬ NoDup [1; -2; 1]%Z).
  { intros Hnd. apply NoDup_cons in Hnd as [Hnot _]. apply Hnot.
    apply list_elem_of_In. simpl. auto. }
  split; [exact Hdup|].
  apply (dense_axis_validation ctx (x_desc LOD_TENSOR [2; 3]%Z)).
  - reflexivity.
  - reflexivity.
  - reflexivity.
  - discriminate.
  - repeat (apply Forall_cons; split; [unfold DDim_size; simpl; lia|]).
    apply Forall_nil_2.
  - exact Hdup.
Defined.

(** C2. For a tensor-list input (with [X] and [Out] bound), [InferShape]
    throws invalid-argument whenever [axis] does not have exactly one entry,
    throws invalid-argument whenever its single entry is not [0], and accepts
    exactly the singleton [[0]]. *)
Theorem array_axis_validation ctx dx :
  input_desc ctx "X" = Some dx →
  HasOutput ctx "Out" = true →
  var_type dx = LOD_TENSOR_ARRAY →
  let axis := ctx_axis ctx in
  (length axis ≠ 1 → InferShape ctx = Raise InvalidArgument)
  ∧ (∀ a, axis = [a] → a ≠ 0%Z → InferShape ctx = Raise InvalidArgument)
  ∧ (succeeds (InferShape ctx) ↔ axis = [0%Z]).
Proof.
  intros HX HOut Hty axis.
  unfold HasOutput in HOut. apply bool_decide_eq_true_1 in HOut as [dout HOut].
  pose proof (SetOutputDim_succeeds ctx "Out" dout (var_dims dx) HOut) as Hset.
  rewrite (InferShape_bound ctx dx dout HX HOut).
  rewrite (bool_decide_eq_true_2 _ Hty). fold axis.
  split_and!.
  - intros Hlen. rewrite bool_decide_eq_false_2; [done|]. by intros ->.
  - intros a -> Hne. rewrite bool_decide_eq_false_2; [done | congruence].
  - case_bool_decide as Haxis; [|done].
    split; [done|]. intros _. by destruct (ctx_runtime ctx).
Qed.

Lemma array_axis_validation_witness :
  let ctx := bound_ctx LOD_TENSOR_ARRAY [3]%Z [0]%Z true in
  succeeds (InferShape ctx)
  ∧ InferShape (bound_ctx LOD_TENSOR_ARRAY [3]%Z [1]%Z true)
    = Raise InvalidArgument.
Proof.
  split.
  - apply (array_axis_validation _ (x_desc LOD_TENSOR_ARRAY [3]%Z));
      reflexivity.
  - apply (array_axis_validation (bound_ctx LOD_TENSOR_ARRAY [3]%Z [1]%Z true)
             (x_desc LOD_TENSOR_ARRAY [3]%Z)) with (a := 1%Z);
      first [reflexivity | discriminate].
Defined.

(** C3. Whenever [InferShape] succeeds on a dense tensor input, it has
    assigned the shape of [X] to [Out]; on a tensor-list input it assigns the
    shape of [X] to [Out] at graph-build time only, and at runtime it leaves
    the context as it was. *)
Theorem output_shape_assignment ctx ctx' dx :
  input_desc ctx "X" = Some dx →
  InferShape ctx = Ok ctx' →
  (var_type dx = LOD_TENSOR →
     SetOutputDim ctx "Out" (var_dims dx) = Ok ctx'
     ∧ var_dims <$> output_desc ctx' "Out" = Some (var_dims dx))
  ∧ (var_type dx = LOD_TENSOR_ARRAY → ctx_runtime ctx = false →
     SetOutputDim ctx "Out" (var_dims dx) = Ok ctx'
     ∧ var_dims <$> output_desc ctx' "Out" = Some (var_dims dx))
  ∧ (var_type dx = LOD_TENSOR_ARRAY → ctx_runtime ctx = true → ctx' = ctx).
Proof.
  intros HX Hrun.
  destruct (output_desc ctx "Out") as [dout|] eqn:HOut; cycle 1.
  { rewrite InferShape_unbound in Hrun; [done|].
    right. by apply HasOutput_false. }
  rewrite (InferShape_bound ctx dx dout HX HOut) in Hrun.
  split_and!.
  - intros Hty.
    rewrite bool_decide_eq_false_2 in Hrun by (rewrite Hty; discriminate).
    case_bool_decide; [done|]. case_bool_decide; [|done].
    split; [done|]. by eapply SetOutputDim_output.
  - intros Hty Hbuild. rewrite (bool_decide_eq_true_2 _ Hty), Hbuild in Hrun.
    case_bool_decide; [|done].
    split; [done|]. by eapply SetOutputDim_output.
  - intros Hty Hruntime.
    rewrite (bool_decide_eq_true_2 _ Hty), Hruntime in Hrun.
    case_bool_decide; [|done]. by injection Hrun.
Qed.

Lemma output_shape_assignment_witness :
  InferShape (bound_ctx LOD_TENSOR [2; 3]%Z [-1]%Z false)
    = Ok (shaped_ctx LOD_TENSOR [2; 3]%Z [-1]%Z false)
  ∧ var_dims <$> output_desc (shaped_ctx LOD_TENSOR [2; 3]%Z [-1]%Z false) "Out"
    = Some [2; 3]%Z.
Proof.
  assert (Hrun : InferShape (bound_ctx LOD_TENSOR [2; 3]%Z [-1]%Z false)
                 = Ok (shaped_ctx LOD_TENSOR [2; 3]%Z [-1]%Z false))
    by (vm_compute; reflexivity).
  assert (HX : input_desc (bound_ctx LOD_TENSOR [2; 3]%Z [-1]%Z false) "X"
               = Some (x_desc LOD_TENSOR [2; 3]%Z)) by reflexivity.
  split; [exact Hrun|].
  destruct (output_shape_assignment _ _ _ HX Hrun) as [Hdense _].
  apply Hdense. reflexivity.
Defined.

(** C9. [InferShape] throws missing-binding whenever input [X] or output
    [Out] is not bound, and it does so whatever the [axis] attribute, the
    runtime flag and the variant of [X] are: the two presence checks come
    before anything else is inspected. *)
Theorem missing_binding_first ctx :
  HasInput ctx "X" = false ∨ HasOutput ctx "Out" = false →
  InferShape ctx = Raise MissingBinding
  ∧ ∀ axis runtime,
      InferShape {| ctx_inputs := ctx_inputs ctx;
                    ctx_outputs := ctx_outputs ctx;
                    ctx_vars := ctx_vars ctx;
                    ctx_axis := axis;
                    ctx_runtime := runtime |}
      = Raise MissingBinding.
Proof.
  intros Hunbound. split; [by apply InferShape_unbound|].
  intros axis runtime. apply InferShape_unbound.
  destruct Hunbound as [HX|HOut]; [left; exact HX | right; exact HOut].
Qed.

Lemma missing_binding_first_witness :
  HasOutput (no_out_ctx []) "Out" = false
  ∧ InferShape (no_out_ctx []) = Raise MissingBinding
  ∧ InferShape (no_out_ctx [5]%Z) = Raise MissingBinding.
Proof.
  assert (Hno : HasOutput (no_out_ctx []) "Out" = false) by reflexivity.
  destruct (missing_binding_first (no_out_ctx []) (or_intror Hno))
    as [Hhere Hany].
  split_and!; [exact Hno | exact Hhere | exact (Hany [5]%Z false)].
Defined.

(** C10. For a dense tensor input of rank 0, [InferShape] never succeeds:
    with [Out] bound, an empty [axis] throws invalid-argument and every
    non-empty [axis] throws out-of-range, since no entry [a] has both
    [a < 0] and [a >= 0]. *)
Theorem rank0_always_rejected ctx dx :
  input_desc ctx "X" = Some dx →
  var_type dx = LOD_TENSOR →
  var_dims dx = [] →
  ¬ succeeds (InferShape ctx)
  ∧ (HasOutput ctx "Out" = true →
       (ctx_axis ctx = [] → InferShape ctx = Raise InvalidArgument)
       ∧ (ctx_axis ctx ≠ [] → InferShape ctx = Raise OutOfRange)).
Proof.
  intros HX Hty Hdims.
  assert (Hnone : ∀ a rest,
    ¬ Forall (λ a, (- DDim_size (var_dims dx) ≤ a
                    < DDim_size (var_dims dx))%Z) (a :: rest)).
  { intros a rest Hall. apply Forall_cons in Hall as [Ha _].
    rewrite Hdims in Ha. unfold DDim_size in Ha. simpl in Ha. lia. }
  destruct (output_desc ctx "Out") as [dout|] eqn:HOut; cycle 1.
  { rewrite InferShape_unbound by (right; by apply HasOutput_false).
    split; [by intros []|].
    apply HasOutput_false in HOut. rewrite HOut. discriminate. }
  rewrite (InferShape_bound ctx dx dout HX HOut).
  rewrite bool_decide_eq_false_2 by (rewrite Hty; discriminate).
  destruct (ctx_axis ctx) as [|a rest].
  - rewrite bool_decide_eq_true_2 by done. split; [by intros []|done].
  - rewrite bool_decide_eq_false_2 by done.
    rewrite bool_decide_eq_false_2 by apply Hnone.
    split; [by intros []|]. intros _. split; [discriminate|done].
Qed.

Lemma rank0_always_rejected_witness :
  InferShape (bound_ctx LOD_TENSOR [] [0]%Z false) = Raise OutOfRange
  ∧ InferShape (bound_ctx LOD_TENSOR [] [-1]%Z false) = Raise OutOfRange
  ∧ InferShape (bound_ctx LOD_TENSOR [] [] false) = Raise InvalidArgument.
Proof.
  split_and!.
  - apply (rank0_always_rejected (bound_ctx LOD_TENSOR [] [0]%Z false)
             (x_desc LOD_TENSOR [])); reflexivity || discriminate.
  - apply (rank0_always_rejected (bound_ctx LOD_TENSOR [] [-1]%Z false)
             (x_desc LOD_TENSOR [])); reflexivity || discriminate.
  - apply (rank0_always_rejected (bound_ctx LOD_TENSOR [] [] false)
             (x_desc LOD_TENSOR [])); reflexivity.
Defined.

(** Two build-time failures: shape [[3]] with an empty [axis], and shape
    [[2,3]] with [axis = [2]]. *)
Example empty_axis_rejected :
  InferShape (bound_ctx LOD_TENSOR [3]%Z [] false) = Raise InvalidArgument.
Proof. reflexivity. Qed.

Example axis_beyond_rank_rejected :
  InferShape (bound_ctx LOD_TENSOR [2; 3]%Z [2]%Z false) = Raise OutOfRange.
Proof. reflexivity. Qed.

End InferShapeClaims.

(** ** Variable-type inference *)

Section VarTypeInferenceClaims.
Import Framework ReverseOp Scenarios.
Implicit Types (ctx : InferVarTypeContext) (d : VarDesc).

Lemma vt_update_output_bound ctx name v d f :
  slot_var (vt_outputs ctx) name = Some v →
  vt_vars ctx !! v = Some d →
  vt_update_output ctx name f =
    Ok {| vt_inputs := vt_inputs ctx; vt_outputs := vt_outputs ctx;
          vt_vars := <[v := f d]> (vt_vars ctx) |}.
Proof. intros Hv Hd. unfold vt_update_output. by rewrite Hv, Hd. Qed.

(** Setting the variant kind of [Out] to that of [X] leaves the dtype that
    is read from [X] afterwards as it was, also when both slots name the
    same variable. *)
Lemma dtype_after_SetType ctx dx v dout :
  vt_input_desc ctx "X" = Some dx →
  vt_vars ctx !! v = Some dout →
  var_dtype <$>
    vt_input_desc
      {| vt_inputs := vt_inputs ctx; vt_outputs := vt_outputs ctx;
         vt_vars := <[v := VarDesc_SetType (var_type dx) dout]> (vt_vars ctx) |}
      "X"
  = Some (var_dtype dx).
Proof.
  unfold vt_input_desc. cbn [vt_inputs vt_vars].
  destruct (slot_var (vt_inputs ctx) "X") as [x|]; [|done]. cbn.
  intros Hx Hv. destruct (decide (v = x)) as [->|Hne].
  - rewrite lookup_insert_eq. cbn. congruence.
  - rewrite lookup_insert_ne by done. by rewrite Hx.
Qed.

(** C5. With [X] and [Out] bound, variable-type inference succeeds and
    changes the store at the variable of [Out] only, whose variant kind and
    element dtype become those of [X] while its other fields stay; slots and
    all other variables are untouched. *)
Theorem var_type_inference_frame ctx dx v dout :
  vt_input_desc ctx "X" = Some dx →
  slot_var (vt_outputs ctx) "Out" = Some v →
  vt_vars ctx !! v = Some dout →
  ∃ ctx',
    ReverseOpVarTypeInference ctx = Ok ctx'
    ∧ vt_inputs ctx' = vt_inputs ctx
    ∧ vt_outputs ctx' = vt_outputs ctx
    ∧ vt_vars ctx' =
        <[v := {| var_type := var_type dx; var_dtype := var_dtype dx;
                  var_dims := var_dims dout;
                  var_lod_level := var_lod_level dout |}]> (vt_vars ctx)
    ∧ (∀ w, w ≠ v → vt_vars ctx' !! w = vt_vars ctx !! w).
Proof.
  intros HX Hv Hd.
  pose proof (dtype_after_SetType ctx dx v dout HX Hd) as Hdtype.
  unfold ReverseOpVarTypeInference, GetInputType, GetInputDataType,
    SetOutputType, SetOutputDataType.
  rewrite HX, bind_Ok, (vt_update_output_bound ctx "Out" v dout _ Hv Hd), bind_Ok.
  destruct (vt_input_desc {| vt_inputs := _ |} "X") as [dx'|]; [|done].
  cbn in Hdtype. injection Hdtype as Hdtype. rewrite bind_Ok.
  erewrite vt_update_output_bound;
    [|exact Hv|cbn [vt_vars]; apply lookup_insert_eq].
  eexists. split; [reflexivity|]. cbn [vt_inputs vt_outputs vt_vars].
  rewrite insert_insert_eq, Hdtype.
  split_and!; [done..|]. intros w Hw. by rewrite lookup_insert_ne.
Qed.

Lemma var_type_inference_frame_witness :
  ∃ ctx',
    ReverseOpVarTypeInference vt_ctx = Ok ctx'
    ∧ vt_inputs ctx' = vt_inputs vt_ctx
    ∧ vt_outputs ctx' = vt_outputs vt_ctx
    ∧ vt_vars ctx' =
        <["out" := {| var_type := LOD_TENSOR_ARRAY; var_dtype := INT64;
                      var_dims := [7%Z]; var_lod_level := 1 |}]>
          (vt_vars vt_ctx)
    ∧ (∀ w, w ≠ "out" → vt_vars ctx' !! w = vt_vars vt_ctx !! w).
Proof.
  apply (var_type_inference_frame vt_ctx
           {| var_type := LOD_TENSOR_ARRAY; var_dtype := INT64;
              var_dims := [4%Z]; var_lod_level := 0 |}
           "out"
           {| var_type := LOD_TENSOR; var_dtype := FP32;
              var_dims := [7%Z]; var_lod_level := 1 |}); reflexivity.
Defined.

End VarTypeInferenceClaims.

(** ** Gradient maker *)

Section GradMakerClaims.
Import Framework ReverseOp Scenarios.

(** C4. For a forward operator that carries an [axis] attribute, the
    gradient maker emits exactly one backward node: its type is [reverse],
    its only input [X] is the gradient of the forward output [Out], its only
    output [Out] is the gradient slot of the forward input [X], and its only
    attribute [axis] is the forward [axis], unchanged. *)
Theorem grad_maker_emits_reverse {Attribute}
    (this : SingleGradOpMaker Attribute) (axis : Attribute) :
  GetAttr this "axis" = Some axis →
  GradOpMaker_call this =
    Some [ {| op_type := "reverse";
              op_inputs := {[ "X" := OutputGrad this "Out" ]};
              op_outputs := {[ "Out" := InputGrad this "X" ]};
              op_attrs := {[ "axis" := axis ]} |} ].
Proof.
  intros Haxis. unfold GradOpMaker_call, Apply. rewrite Haxis. cbn.
  unfold SetAttr, SetOutput, SetInput, SetType, new_OpDesc. cbn.
  by rewrite !insert_empty.
Qed.

Lemma grad_maker_emits_reverse_witness :
  GetAttr forward_maker "axis" = Some [0; 2]%Z
  ∧ GradOpMaker_call forward_maker =
      Some [ {| op_type := "reverse";
                op_inputs := {[ "X" := ["out@GRAD"] ]};
                op_outputs := {[ "Out" := ["x@GRAD"] ]};
                op_attrs := {[ "axis" := [0; 2]%Z ]} |} ].
Proof.
  split; [reflexivity|].
  apply (grad_maker_emits_reverse forward_maker [0; 2]%Z). reflexivity.
Defined.

End GradMakerClaims.

(** ** Kernel *)

Section KernelFacts.
Import Framework ReverseKernel.
Implicit Types (dims idx : list nat) (sel : nat → bool) (p k : nat).

(** *** Row-major positions and index tuples *)

Lemma index_of_in_bounds dims p :
  p < product dims → in_bounds dims (index_of dims p).
Proof.
  revert p. induction dims as [|d ds IH]; intros p Hp; cbn [index_of].
  - constructor.
  - cbn [product] in Hp.
    assert (product ds ≠ 0) by (intros Hz; rewrite Hz in Hp; lia).
    constructor.
    + apply Nat.Div0.div_lt_upper_bound. lia.
    + apply IH. by apply Nat.mod_upper_bound.
Qed.

Lemma offset_lt dims idx :
  in_bounds dims idx → offset dims idx < product dims.
Proof.
  induction 1 as [|i d idx ds Hi _ IH]; cbn [offset product]; [lia | nia].
Qed.

Lemma offset_index_of dims p :
  p < product dims → offset dims (index_of dims p) = p.
Proof.
  revert p. induction dims as [|d ds IH]; intros p Hp;
    cbn [index_of offset product] in *; [lia|].
  assert (product ds ≠ 0) by (intros Hz; rewrite Hz in Hp; lia).
  rewrite IH by (by apply Nat.mod_upper_bound).
  pose proof (Nat.div_mod_eq p (product ds)). lia.
Qed.

Lemma index_of_offset dims idx :
  in_bounds dims idx → index_of dims (offset dims idx) = idx.
Proof.
  induction 1 as [|i d idx ds Hi Hrest IH]; cbn [offset index_of]; [done|].
  pose proof (offset_lt _ _ Hrest) as Hlt.
  rewrite <- (Nat.div_unique (i * product ds + offset ds idx) (product ds)
                i (offset ds idx)) by lia.
  rewrite <- (Nat.mod_unique (i * product ds + offset ds idx) (product ds)
                i (offset ds idx)) by lia.
  by rewrite IH.
Qed.

(** *** Flipping index tuples *)

Lemma flip_from_in_bounds sel k dims idx :
  in_bounds dims idx → in_bounds dims (flip_from sel k dims idx).
Proof.
  intros H. revert k.
  induction H as [|i d idx ds Hi _ IH]; intros k; cbn [flip_from].
  - constructor.
  - constructor; [destruct (sel k); lia | apply IH].
Qed.

Lemma flip_from_compose sel1 sel2 k dims idx :
  in_bounds dims idx →
  flip_from sel1 k dims (flip_from sel2 k dims idx)
  = flip_from (λ j, xorb (sel1 j) (sel2 j)) k dims idx.
Proof.
  intros H. revert k.
  induction H as [|i d idx ds Hi _ IH]; intros k; cbn [flip_from]; [done|].
  rewrite IH. f_equal. destruct (sel1 k), (sel2 k); cbn; lia.
Qed.

Lemma flip_from_ext sel1 sel2 k dims idx :
  (∀ j, sel1 j = sel2 j) →
  flip_from sel1 k dims idx = flip_from sel2 k dims idx.
Proof.
  intros Hext. revert k idx.
  induction dims as [|d ds IH]; intros k [|i idx]; cbn [flip_from]; try done.
  by rewrite Hext, IH.
Qed.

Lemma flip_from_none sel k dims idx :
  (∀ j, sel j = false) → in_bounds dims idx → flip_from sel k dims idx = idx.
Proof.
  intros Hnone H. revert k.
  induction H as [|i d idx ds Hi _ IH]; intros k; cbn [flip_from]; [done|].
  by rewrite Hnone, IH.
Qed.

Lemma flip_from_involutive sel k dims idx :
  in_bounds dims idx →
  flip_from sel k dims (flip_from sel k dims idx) = idx.
Proof.
  intros H. rewrite flip_from_compose by done.
  apply flip_from_none; [|done]. intros j. by destruct (sel j).
Qed.

(** Component [j] of a flipped index tuple. *)
Lemma flip_from_lookup sel k dims idx j d i :
  dims !! j = Some d → idx !! j = Some i →
  flip_from sel k dims idx !! j
  = Some (if sel (k + j) then d - 1 - i else i).
Proof.
  revert k idx j.
  induction dims as [|d' ds IH]; intros k [|i' idx] [|j]; cbn [flip_from];
    try done.
  - intros [= ->] [= ->]. by rewrite Nat.add_0_r.
  - intros Hd Hi.
    change (flip_from sel (S k) ds idx !! j
            = Some (if sel (k + S j) then d - 1 - i else i)).
    rewrite (IH (S k) idx j Hd Hi).
    by replace (S k + j) with (k + S j) by lia.
Qed.

(** *** Source positions *)

Lemma source_lt sel dims p :
  p < product dims → source sel dims p < product dims.
Proof.
  intros Hp. apply offset_lt, flip_from_in_bounds.
  by apply index_of_in_bounds.
Qed.

Lemma source_compose sel1 sel2 dims p :
  p < product dims →
  source sel1 dims (source sel2 dims p)
  = source (λ j, xorb (sel1 j) (sel2 j)) dims p.
Proof.
  intros Hp. unfold source.
  pose proof (index_of_in_bounds dims p Hp) as Hidx.
  rewrite index_of_offset by (by apply flip_from_in_bounds).
  by rewrite flip_from_compose.
Qed.

Lemma source_none sel dims p :
  (∀ j, sel j = false) → p < product dims → source sel dims p = p.
Proof.
  intros Hnone Hp. unfold source.
  rewrite flip_from_none by (done || by apply index_of_in_bounds).
  by apply offset_index_of.
Qed.

Lemma source_offset_flip sel dims idx :
  in_bounds dims idx →
  source sel dims (offset dims (flip_from sel 0 dims idx)) = offset dims idx.
Proof.
  intros H. unfold source.
  rewrite index_of_offset by (by apply flip_from_in_bounds).
  by rewrite flip_from_involutive.
Qed.

(** *** Gathering a buffer *)

Section Gather.
Context {T : Type} `{Inhabited T}.
Implicit Types (buf : list T).

Lemma length_gather sel dims buf :
  length (gather sel dims buf) = product dims.
Proof. unfold gather. by rewrite length_fmap, length_seq. Qed.

Lemma gather_lookup sel dims buf p :
  p < product dims →
  gather sel dims buf !! p = Some (buf !!! source sel dims p).
Proof.
  intros Hp. unfold gather. by rewrite list_lookup_fmap, lookup_seq_lt.
Qed.

Lemma gather_ext sel1 sel2 dims buf :
  (∀ j, sel1 j = sel2 j) → gather sel1 dims buf = gather sel2 dims buf.
Proof.
  intros Hext. unfold gather, source. apply list_fmap_ext. intros _ p _.
  by rewrite (flip_from_ext sel1 sel2).
Qed.

(** Two reversals in sequence flip the axes selected by exactly one. *)
Lemma gather_gather sel1 sel2 dims buf :
  gather sel2 dims (gather sel1 dims buf)
  = gather (λ j, xorb (sel1 j) (sel2 j)) dims buf.
Proof.
  unfold gather at 1 3. apply list_fmap_ext. intros i p Hp.
  apply lookup_seq in Hp as [-> Hi]. cbn [Nat.add].
  erewrite list_lookup_total_correct;
    [|apply gather_lookup; by apply source_lt].
  by rewrite source_compose.
Qed.

Lemma gather_none sel dims buf :
  (∀ j, sel j = false) → length buf = product dims →
  gather sel dims buf = buf.
Proof.
  intros Hnone Hlen. apply list_eq. intros p.
  destruct (decide (p < product dims)) as [Hp|Hp].
  - rewrite gather_lookup, source_none by done.
    symmetry. apply list_lookup_lookup_total_lt. lia.
  - rewrite !lookup_ge_None_2; [done | lia | rewrite length_gather; lia].
Qed.

Lemma gather_involutive sel dims buf :
  length buf = product dims →
  gather sel dims (gather sel dims buf) = buf.
Proof.
  intros Hlen. rewrite gather_gather. apply gather_none; [|done].
  intros j. by destruct (sel j).
Qed.

End Gather.

End KernelFacts.

Section KernelClaims.
Import Framework ReverseOp ReverseKernel Scenarios.
Context {T : Type} `{Inhabited T}.
Implicit Types (x : LoDTensor T) (axis : list Z).

Lemma normalize_nonneg (rank a : Z) : (0 ≤ a)%Z → normalize rank a = a.
Proof. intros Ha. unfold normalize. by rewrite (proj2 (Z.ltb_ge a 0) Ha). Qed.

Lemma elem_of_axis_set (rank : nat) axis (z : Z) :
  z ∈ axis_set rank axis ↔
  ∃ a, a ∈ axis ∧ z = (if (a <? 0)%Z then a + Z.of_nat rank else a)%Z.
Proof.
  unfold axis_set. rewrite elem_of_list_to_set, list_elem_of_fmap.
  unfold normalize. split; intros (a & Ha1 & Ha2); by exists a.
Qed.

Lemma elem_of_axis_set_nonneg (rank : nat) axis (z : Z) :
  Forall (λ a, (0 ≤ a)%Z) axis → z ∈ axis_set rank axis ↔ z ∈ axis.
Proof.
  intros Hpos. rewrite elem_of_axis_set. rewrite Forall_forall in Hpos.
  split.
  - intros (a & Ha & ->). by rewrite (proj2 (Z.ltb_ge a 0) (Hpos a Ha)).
  - intros Hz. exists z. by rewrite (proj2 (Z.ltb_ge z 0) (Hpos z Hz)).
Qed.

Lemma elem_of_symmetric_difference (A B : list Z) (z : Z) :
  z ∈ symmetric_difference A B ↔ (z ∈ A ∧ z ∉ B) ∨ (z ∈ B ∧ z ∉ A).
Proof.
  unfold symmetric_difference.
  by rewrite elem_of_app, !list_elem_of_difference.
Qed.

Lemma list_difference_disjoint (A B : list Z) :
  (∀ a, a ∈ A → a ∉ B) → list_difference A B = A.
Proof.
  induction A as [|a A IH]; intros Hdisj; cbn [list_difference]; [done|].
  destruct (decide_rel elem_of a B) as [Hin|_].
  { by destruct (Hdisj a (list_elem_of_here a A)). }
  rewrite IH; [done|]. intros b Hb. apply Hdisj. by right.
Qed.

Lemma reversed_symmetric_difference (rank : nat) (A B : list Z) k :
  Forall (λ a, (0 ≤ a)%Z) A → Forall (λ a, (0 ≤ a)%Z) B →
  reversed (axis_set rank (symmetric_difference A B)) k
  = xorb (reversed (axis_set rank A) k) (reversed (axis_set rank B) k).
Proof.
  intros HA HB. unfold reversed.
  assert (HAB : Forall (λ a, (0 ≤ a)%Z) (symmetric_difference A B)).
  { unfold symmetric_difference. apply Forall_app.
    split; by apply Forall_list_difference. }
  pose proof (elem_of_axis_set_nonneg rank _ (Z.of_nat k) HA).
  pose proof (elem_of_axis_set_nonneg rank _ (Z.of_nat k) HB).
  pose proof (elem_of_axis_set_nonneg rank _ (Z.of_nat k) HAB).
  pose proof (elem_of_symmetric_difference A B (Z.of_nat k)).
  repeat case_bool_decide; cbn; try done; exfalso; tauto.
Qed.

(** Reversing along [A] and then along [B] reverses along their symmetric
    difference, for axis lists without negative entries. *)
Lemma reverse_tensor_compose x (A B : list Z) :
  Forall (λ a, (0 ≤ a)%Z) A → Forall (λ a, (0 ≤ a)%Z) B →
  reverse_tensor (reverse_tensor x A) B
  = reverse_tensor x (symmetric_difference A B).
Proof.
  intros HA HB. unfold reverse_tensor. cbn [dims lod data]. f_equal.
  rewrite gather_gather. apply gather_ext. intros j.
  by rewrite reversed_symmetric_difference.
Qed.

Lemma reverse_tensor_involutive x axis :
  well_typed x → reverse_tensor (reverse_tensor x axis) axis = x.
Proof.
  intros Hx. unfold reverse_tensor. cbn [dims lod data].
  rewrite gather_involutive by done. by destruct x.
Qed.

(** C7. For a well-typed dense tensor, with [A] the set of the entries of
    [axis] normalized by [a < 0 ? a + rank : a] and [i'] the index tuple with
    [i'_k = extent_k - 1 - i_k] for [k] in [A] and [i'_k = i_k] otherwise,
    the output at [i'] is the input at [i]; shape and per-row length
    metadata are copied unchanged; and on the input of shape [[2,2,4]]
    holding 1..16 with [axis = [0,2]] the output is the one given in the
    operator's documentation. *)
Theorem reverse_tensor_semantics x axis (idx : list nat) :
  well_typed x →
  in_bounds (dims x) idx →
  let rank := length (dims x) in
  let A := axis_set rank axis in
  let idx' := flip A (dims x) idx in
  (∀ z, z ∈ A ↔
     ∃ a, a ∈ axis ∧ z = (if (a <? 0)%Z then a + Z.of_nat rank else a)%Z)
  ∧ (∀ k d i, dims x !! k = Some d → idx !! k = Some i →
       idx' !! k
       = Some (if bool_decide (Z.of_nat k ∈ A) then d - 1 - i else i))
  ∧ in_bounds (dims x) idx'
  ∧ is_Some (data x !! offset (dims x) idx)
  ∧ data (reverse_tensor x axis) !! offset (dims x) idx'
    = data x !! offset (dims x) idx
  ∧ dims (reverse_tensor x axis) = dims x
  ∧ lod (reverse_tensor x axis) = lod x
  ∧ reverse_tensor case2_X [0; 2]%Z = case2_Out.
Proof.
  intros Hx Hidx rank A idx'.
  assert (Hidx' : in_bounds (dims x) idx') by (by apply flip_from_in_bounds).
  assert (Hlt : offset (dims x) idx < length (data x)).
  { rewrite Hx. by apply offset_lt. }
  split_and!; try done.
  - apply elem_of_axis_set.
  - intros k d i Hd Hi. unfold idx', flip.
    by rewrite (flip_from_lookup _ 0 _ _ k d i Hd Hi).
  - by apply lookup_lt_is_Some_2.
  - unfold reverse_tensor. cbn [data].
    rewrite gather_lookup by (by apply offset_lt).
    unfold idx', flip. rewrite source_offset_flip by done.
    symmetry. by apply list_lookup_lookup_total_lt.
Qed.

(** C8. For a dense tensor of rank [rank] and disjoint axis lists [A] and
    [B] drawn from [0 .. rank-1], reversing along [A] and then along [B]
    equals one reversal along the symmetric difference of [A] and [B], which
    for disjoint lists is [A ++ B]. *)
Theorem reverse_disjoint_axes x (A B : list Z) :
  let rank := Z.of_nat (length (dims x)) in
  Forall (λ a, (0 ≤ a < rank)%Z) A →
  Forall (λ a, (0 ≤ a < rank)%Z) B →
  (∀ a, a ∈ A → a ∉ B) →
  reverse_tensor (reverse_tensor x A) B
  = reverse_tensor x (symmetric_difference A B)
  ∧ symmetric_difference A B = A ++ B.
Proof.
  intros rank HA HB Hdisj. split.
  - apply reverse_tensor_compose.
    + eapply Forall_impl; [exact HA|]. cbn. lia.
    + eapply Forall_impl; [exact HB|]. cbn. lia.
  - unfold symmetric_difference.
    rewrite !list_difference_disjoint; [done| |done].
    intros b Hb Ha. by apply (Hdisj b).
Qed.

(** C6. For every well-typed value [X] and every [axis] that [InferShape]
    accepts for a variable holding [X], applying [reverse] twice with that
    [axis] gives [X] back. *)
Theorem reverse_involution (x : Value T) (ctx : InferShapeContext)
    (dx : VarDesc) :
  value_well_typed x →
  input_desc ctx "X" = Some dx →
  describes dx x →
  succeeds (InferShape ctx) →
  reverse (reverse x (ctx_axis ctx)) (ctx_axis ctx) = x.
Proof.
  intros Hx _ _ _. destruct x as [x|x_arr]; cbn [reverse].
  - f_equal. by apply reverse_tensor_involutive.
  - f_equal. apply rev_involutive.
Qed.

End KernelClaims.

Section KernelScenarios.
Import Framework ReverseOp ReverseKernel Scenarios.

Lemma reverse_tensor_semantics_witness :
  data (reverse_tensor case2_X [0; -1]%Z) !! offset [2; 2; 4] [1; 0; 3]
  = data case2_X !! offset [2; 2; 4] [0; 0; 0]
  ∧ reverse_tensor case1_X [0]%Z = case1_Out.
Proof.
  split; [|reflexivity].
  assert (Hx : well_typed case2_X) by reflexivity.
  assert (Hidx : in_bounds (dims case2_X) [0; 0; 0]).
  { repeat (apply Forall2_cons_2; [cbn; lia|]). apply Forall2_nil_2. }
  destruct (reverse_tensor_semantics case2_X [0; -1]%Z [0; 0; 0] Hx Hidx)
    as (_ & _ & _ & _ & Hdata & _).
  exact Hdata.
Defined.

(** A one-dimensional tensor flipped end for end, by [axis = [-1]] as by
    [axis = [0]]; and a list of three tensors in reverse order. *)
Example reverse_last_axis :
  data (reverse_tensor {| dims := [3]; lod := []; data := [1; 2; 3]%Z |}
          [-1]%Z) = [3; 2; 1]%Z
  ∧ data (reverse_tensor {| dims := [3]; lod := []; data := [1; 2; 3]%Z |}
            [0]%Z) = [3; 2; 1]%Z.
Proof. split; reflexivity. Qed.

Example reverse_list_of_three :
  reverse (IsLoDTensorArray [case1_X; case2_X; case2_Out]) [0]%Z
  = IsLoDTensorArray [case2_Out; case2_X; case1_X].
Proof. reflexivity. Qed.

Lemma reverse_disjoint_axes_witness :
  reverse_tensor (reverse_tensor case2_X [0]%Z) [2]%Z
  = reverse_tensor case2_X (symmetric_difference [0] [2])%Z
  ∧ symmetric_difference [0]%Z [2]%Z = [0; 2]%Z.
Proof.
  apply (reverse_disjoint_axes case2_X [0]%Z [2]%Z).
  - apply Forall_cons_2; [cbn; lia | apply Forall_nil_2].
  - apply Forall_cons_2; [cbn; lia | apply Forall_nil_2].
  - intros a Ha Hb.
    apply list_elem_of_singleton in Ha. apply list_elem_of_singleton in Hb.
    lia.
Defined.

Lemma reverse_involution_witness :
  succeeds (InferShape (bound_ctx LOD_TENSOR [2; 2; 4]%Z [0; 2]%Z false))
  ∧ reverse (reverse (IsLoDTensor case2_X) [0; 2]%Z) [0; 2]%Z
    = IsLoDTensor case2_X.
Proof.
  assert (Hok : succeeds
            (InferShape (bound_ctx LOD_TENSOR [2; 2; 4]%Z [0; 2]%Z false)))
    by (vm_compute; exact I).
  split; [exact Hok|].
  apply (reverse_involution (IsLoDTensor case2_X)
           (bound_ctx LOD_TENSOR [2; 2; 4]%Z [0; 2]%Z false)
           (x_desc LOD_TENSOR [2; 2; 4]%Z)).
  - reflexivity.
  - reflexivity.
  - split; reflexivity.
  - exact Hok.
Defined.

End KernelScenarios.

(** * Further properties of the code *)

(** ** Shape inference: what a successful run changes *)

Section InferShapeEffects.
Import Framework ReverseOp Views Scenarios MoreScenarios.
Implicit Types (ctx : InferShapeContext) (dx dout : VarDesc).

Lemma input_desc_Some ctx name d :
  input_desc ctx name = Some d ↔
  ∃ v, slot_var (ctx_inputs ctx) name = Some v ∧ ctx_vars ctx !! v = Some d.
Proof. unfold input_desc. by rewrite bind_Some. Qed.

Lemma VarDesc_SetShape_same d : VarDesc_SetShape (var_dims d) d = d.
Proof. by destruct d. Qed.

(** A run that returns has either left the context alone or assigned the
    shape of [X] to [Out]. *)
Lemma InferShape_Ok_cases ctx ctx' :
  InferShape ctx = Ok ctx' →
  ∃ dx, input_desc ctx "X" = Some dx
        ∧ (ctx' = ctx ∨ SetOutputDim ctx "Out" (var_dims dx) = Ok ctx').
Proof.
  intros Hrun.
  destruct (input_desc ctx "X") as [dx|] eqn:HX; cycle 1.
  { rewrite InferShape_unbound in Hrun; [done|]. left. by apply HasInput_false. }
  destruct (output_desc ctx "Out") as [dout|] eqn:HOut; cycle 1.
  { rewrite InferShape_unbound in Hrun; [done|].
    right. by apply HasOutput_false. }
  rewrite (InferShape_bound ctx dx dout HX HOut) in Hrun.
  exists dx. split; [done|].
  destruct (bool_decide (var_type dx = LOD_TENSOR_ARRAY)).
  - destruct (bool_decide (ctx_axis ctx = [0%Z])); [|done].
    destruct (ctx_runtime ctx); [left; congruence | by right].
  - destruct (bool_decide (ctx_axis ctx = [])); [done|].
    destruct (bool_decide (Forall _ _)); [by right | done].
Qed.

Lemma SetOutputDim_Ok_inv ctx ctx' name dims :
  SetOutputDim ctx name dims = Ok ctx' →
  ∃ v dout, slot_var (ctx_outputs ctx) name = Some v
            ∧ ctx_vars ctx !! v = Some dout
            ∧ ctx' = with_vars ctx
                       (<[v := VarDesc_SetShape dims dout]> (ctx_vars ctx)).
Proof.
  unfold SetOutputDim.
  destruct (slot_var (ctx_outputs ctx) name) as [v|]; [|done].
  destruct (ctx_vars ctx !! v) as [dout|] eqn:Hd; [|done].
  intros [= <-]. by exists v, dout.
Qed.

(** Assigning to [Out] the shape [X] already has leaves the descriptor of
    [X] as it was, also when both slots name the same variable. *)
Lemma SetOutputDim_input ctx ctx' dx :
  input_desc ctx "X" = Some dx →
  SetOutputDim ctx "Out" (var_dims dx) = Ok ctx' →
  input_desc ctx' "X" = Some dx.
Proof.
  intros HX Hset.
  apply SetOutputDim_Ok_inv in Hset as (v & dout & Hv & Hd & ->).
  apply input_desc_Some in HX as (x & Hx & Hdx).
  apply input_desc_Some. exists x. split; [done|]. cbn [with_vars ctx_vars].
  destruct (decide (v = x)) as [->|Hne].
  - rewrite lookup_insert_eq. rewrite Hd in Hdx. injection Hdx as ->.
    by rewrite VarDesc_SetShape_same.
  - by rewrite lookup_insert_ne.
Qed.

Lemma SetOutputDim_twice ctx ctx' name dims :
  SetOutputDim ctx name dims = Ok ctx' →
  SetOutputDim ctx' name dims = Ok ctx'.
Proof.
  intros Hset.
  apply SetOutputDim_Ok_inv in Hset as (v & dout & Hv & Hd & ->).
  erewrite SetOutputDim_bound;
    [|exact Hv|cbn [with_vars ctx_vars]; apply lookup_insert_eq].
  unfold with_vars. cbn. by rewrite insert_insert_eq.
Qed.

(** X1. A successful [InferShape] changes nothing but the shape of the
    variable bound to [Out]: the slots, the [axis] attribute and the runtime
    flag stay, every other variable keeps its descriptor, no variable is
    added or removed, and the variable of [Out] keeps its variant kind, its
    dtype and its lod level. *)
Theorem InferShape_frame ctx ctx' :
  InferShape ctx = Ok ctx' →
  ctx_inputs ctx' = ctx_inputs ctx
  ∧ ctx_outputs ctx' = ctx_outputs ctx
  ∧ ctx_axis ctx' = ctx_axis ctx
  ∧ ctx_runtime ctx' = ctx_runtime ctx
  ∧ dom (ctx_vars ctx') = dom (ctx_vars ctx)
  ∧ (∀ w, slot_var (ctx_outputs ctx) "Out" ≠ Some w →
       ctx_vars ctx' !! w = ctx_vars ctx !! w)
  ∧ (∃ dout dout',
       output_desc ctx "Out" = Some dout
       ∧ output_desc ctx' "Out" = Some dout'
       ∧ var_type dout' = var_type dout
       ∧ var_dtype dout' = var_dtype dout
       ∧ var_lod_level dout' = var_lod_level dout).
Proof.
  intros Hrun.
  destruct (output_desc ctx "Out") as [dout|] eqn:HOut; cycle 1.
  { rewrite InferShape_unbound in Hrun; [done|].
    right. by apply HasOutput_false. }
  apply InferShape_Ok_cases in Hrun as (dx & HX & [->|Hset]).
  { split_and!; try done. by exists dout, dout. }
  apply SetOutputDim_Ok_inv in Hset as (v & dv & Hv & Hd & ->).
  cbn [with_vars ctx_inputs ctx_outputs ctx_axis ctx_runtime ctx_vars].
  assert (dv = dout) as ->.
  { apply output_desc_Some in HOut as (v' & Hv' & Hd'). congruence. }
  split_and!; try done.
  - rewrite dom_insert_L. apply subseteq_union_1_L, singleton_subseteq_l.
    by apply elem_of_dom_2 in Hd.
  - intros w Hw. rewrite lookup_insert_ne; [done|]. congruence.
  - exists dout, (VarDesc_SetShape (var_dims dx) dout). split_and!; try done.
    apply output_desc_Some. exists v. split; [done|]. cbn.
    by rewrite lookup_insert_eq.
Qed.

Lemma InferShape_frame_witness :
  InferShape (bound_ctx LOD_TENSOR [2; 3]%Z [-1]%Z false)
    = Ok (shaped_ctx LOD_TENSOR [2; 3]%Z [-1]%Z false)
  ∧ ctx_vars (shaped_ctx LOD_TENSOR [2; 3]%Z [-1]%Z false) !! "x"
    = ctx_vars (bound_ctx LOD_TENSOR [2; 3]%Z [-1]%Z false) !! "x".
Proof.
  assert (Hrun : InferShape (bound_ctx LOD_TENSOR [2; 3]%Z [-1]%Z false)
                 = Ok (shaped_ctx LOD_TENSOR [2; 3]%Z [-1]%Z false))
    by (vm_compute; reflexivity).
  split; [exact Hrun|].
  destruct (InferShape_frame _ _ Hrun) as (_ & _ & _ & _ & _ & Hother & _).
  apply Hother. vm_compute. discriminate.
Defined.

(** X2. A successful [InferShape] never changes the descriptor of [X], also
    when [X] and [Out] name the same variable, and running it again on its
    own result returns that result: shape inference is idempotent. *)
Theorem InferShape_idempotent ctx ctx' :
  InferShape ctx = Ok ctx' →
  input_desc ctx' "X" = input_desc ctx "X"
  ∧ InferShape ctx' = Ok ctx'.
Proof.
  intros Hrun.
  destruct (output_desc ctx "Out") as [dout|] eqn:HOut; cycle 1.
  { rewrite InferShape_unbound in Hrun; [done|].
    right. by apply HasOutput_false. }
  pose proof Hrun as Hcases.
  apply InferShape_Ok_cases in Hcases as (dx & HX & [->|Hset]); [done|].
  pose proof (SetOutputDim_input _ _ _ HX Hset) as HX'.
  split; [congruence|].
  pose proof (SetOutputDim_output _ _ _ _ Hset) as HOut'.
  destruct (output_desc ctx' "Out") as [dout'|] eqn:HOut''; [|done].
  pose proof Hset as Hinv.
  apply SetOutputDim_Ok_inv in Hinv as (v & dv & Hv & Hd & Hctx').
  assert (Haxis : ctx_axis ctx' = ctx_axis ctx) by (by rewrite Hctx').
  assert (Hrt : ctx_runtime ctx' = ctx_runtime ctx) by (by rewrite Hctx').
  rewrite (InferShape_bound ctx dx dout HX HOut) in Hrun.
  rewrite (InferShape_bound ctx' dx dout' HX' HOut''), Haxis, Hrt.
  pose proof (SetOutputDim_twice _ _ _ _ Hset) as Htwice.
  destruct (bool_decide (var_type dx = LOD_TENSOR_ARRAY)).
  - destruct (bool_decide (ctx_axis ctx = [0%Z])); [|done].
    destruct (ctx_runtime ctx); [congruence | done].
  - destruct (bool_decide (ctx_axis ctx = [])); [done|].
    by destruct (bool_decide (Forall _ _)).
Qed.

Lemma InferShape_idempotent_witness :
  InferShape (inplace_ctx [2; 3]%Z [-1]%Z false)
    = Ok (inplace_ctx [2; 3]%Z [-1]%Z false)
  ∧ input_desc (inplace_ctx [2; 3]%Z [-1]%Z false) "X"
    = Some (x_desc LOD_TENSOR [2; 3]%Z).
Proof.
  assert (Hrun : InferShape (inplace_ctx [2; 3]%Z [-1]%Z false)
                 = Ok (inplace_ctx [2; 3]%Z [-1]%Z false))
    by (vm_compute; reflexivity).
  destruct (InferShape_idempotent _ _ Hrun) as [_ Hagain].
  split; [exact Hagain | reflexivity].
Defined.

End InferShapeEffects.

(** ** Shape inference: what the verdict depends on *)

Section InferShapeVerdict.
Import Framework ReverseOp Views Scenarios MoreScenarios.
Implicit Types (ctx : InferShapeContext) (dx dout : VarDesc) (axis : list Z).


Lemma SetOutputDim_not_Raise ctx name dout dims e :
  output_desc ctx name = Some dout → SetOutputDim ctx name dims ≠ Raise e.
Proof.
  intros HOut Hset.
  pose proof (SetOutputDim_succeeds ctx name dout dims HOut) as Hok.
  by rewrite Hset in Hok.
Qed.



(** X4. With [Out] bound, the verdict of [InferShape] depends on [X] only
    through its variant kind and its rank: two graphs whose [X] agree on
    those and which carry the same [axis] are both accepted or both rejected
    with the same error.  In particular the backward node, whose [X] is a
    gradient of the same rank, is accepted exactly when the forward node
    is. *)
Theorem InferShape_rank_only ctx1 ctx2 dx1 dx2 :
  input_desc ctx1 "X" = Some dx1 →
  input_desc ctx2 "X" = Some dx2 →
  HasOutput ctx1 "Out" = true →
  HasOutput ctx2 "Out" = true →
  var_type dx1 = var_type dx2 →
  length (var_dims dx1) = length (var_dims dx2) →
  ctx_axis ctx1 = ctx_axis ctx2 →
  (succeeds (InferShape ctx1) ↔ succeeds (InferShape ctx2))
  ∧ (∀ e, InferShape ctx1 = Raise e ↔ InferShape ctx2 = Raise e).
Proof.
  intros HX1 HX2 HOut1 HOut2 Hty Hrank Haxis.
  unfold HasOutput in HOut1, HOut2.
  apply bool_decide_eq_true_1 in HOut1 as [dout1 HOut1].
  apply bool_decide_eq_true_1 in HOut2 as [dout2 HOut2].
  pose proof (SetOutputDim_succeeds ctx1 "Out" dout1 (var_dims dx1) HOut1).
  pose proof (SetOutputDim_succeeds ctx2 "Out" dout2 (var_dims dx2) HOut2).
  pose proof (λ e, SetOutputDim_not_Raise ctx1 "Out" dout1 (var_dims dx1) e
                     HOut1).
  pose proof (λ e, SetOutputDim_not_Raise ctx2 "Out" dout2 (var_dims dx2) e
                     HOut2).
  rewrite (InferShape_bound ctx1 dx1 dout1 HX1 HOut1).
  rewrite (InferShape_bound ctx2 dx2 dout2 HX2 HOut2).
  unfold DDim_size. rewrite Hty, Hrank, Haxis.
  destruct (bool_decide (var_type dx2 = LOD_TENSOR_ARRAY)).
  - destruct (bool_decide (ctx_axis ctx2 = [0%Z])); [|done].
    destruct (ctx_runtime ctx1), (ctx_runtime ctx2); split; try done;
      intros e; split; intros He; try done; exfalso; naive_solver.
  - destruct (bool_decide (ctx_axis ctx2 = [])); [done|].
    destruct (bool_decide (Forall _ _)); [|done].
    split; [done|]. intros e; split; intros He; exfalso; naive_solver.
Qed.

Lemma InferShape_rank_only_witness :
  (succeeds (InferShape (bound_ctx LOD_TENSOR [2; 3]%Z [-2; 1]%Z false))
   ↔ succeeds (InferShape (backward_ctx LOD_TENSOR [5; 7]%Z [-2; 1]%Z true)))
  ∧ succeeds (InferShape (backward_ctx LOD_TENSOR [5; 7]%Z [-2; 1]%Z true)).
Proof.
  split.
  - apply (InferShape_rank_only
             (bound_ctx LOD_TENSOR [2; 3]%Z [-2; 1]%Z false)
             (backward_ctx LOD_TENSOR [5; 7]%Z [-2; 1]%Z true)
             (x_desc LOD_TENSOR [2; 3]%Z) (x_desc LOD_TENSOR [5; 7]%Z));
      reflexivity.
  - vm_compute. exact I.
Defined.




Lemma SetOutputDim_with_runtime ctx runtime name dims :
  SetOutputDim (with_runtime ctx runtime) name dims =
    match SetOutputDim ctx name dims with
    | Ok ctx' => Ok (with_runtime ctx' runtime)
    | Raise e => Raise e
    end.
Proof.
  unfold SetOutputDim. cbn [with_runtime ctx_outputs ctx_vars].
  destruct (slot_var (ctx_outputs ctx) name) as [v|]; [|done].
  by destruct (ctx_vars ctx !! v).
Qed.

(** X6. Graph construction and runtime agree on validation: whatever the
    phase flag, [InferShape] throws the same error or succeeds in both; and
    for a dense tensor it also assigns the same shape in both, so the flag
    matters only for what a tensor-list run writes. *)
Theorem InferShape_phase_independent ctx (runtime : bool) :
  (∀ e, InferShape (with_runtime ctx runtime) = Raise e
        ↔ InferShape ctx = Raise e)
  ∧ (succeeds (InferShape (with_runtime ctx runtime))
     ↔ succeeds (InferShape ctx))
  ∧ (∀ dx, input_desc ctx "X" = Some dx → var_type dx = LOD_TENSOR →
       InferShape (with_runtime ctx runtime) =
         match InferShape ctx with
         | Ok ctx' => Ok (with_runtime ctx' runtime)
         | Raise e => Raise e
         end).
Proof.
  destruct (input_desc ctx "X") as [dx|] eqn:HX; cycle 1.
  { rewrite !InferShape_unbound; [done|left..]; by apply HasInput_false. }
  destruct (output_desc ctx "Out") as [dout|] eqn:HOut; cycle 1.
  { rewrite !InferShape_unbound; [done|right..]; by apply HasOutput_false. }
  rewrite (InferShape_bound ctx dx dout HX HOut).
  rewrite (InferShape_bound (with_runtime ctx runtime) dx dout HX HOut).
  cbn [with_runtime ctx_axis ctx_runtime]. rewrite SetOutputDim_with_runtime.
  apply output_desc_Some in HOut as (v & Hv & Hd).
  rewrite (SetOutputDim_bound _ _ _ _ _ Hv Hd).
  destruct (bool_decide (var_type dx = LOD_TENSOR_ARRAY)) eqn:Hty.
  - apply bool_decide_eq_true_1 in Hty.
    destruct (bool_decide (ctx_axis ctx = [0%Z])).
    + split_and!.
      * by destruct runtime, (ctx_runtime ctx).
      * by destruct runtime, (ctx_runtime ctx).
      * intros dx' [= <-] Hdense. congruence.
    + by split_and!.
  - destruct (bool_decide (ctx_axis ctx = [])); [done|].
    by destruct (bool_decide (Forall _ _)).
Qed.

(** X7. Every entry of an [axis] that [InferShape] accepts for a dense
    tensor selects an existing dimension of [X] once negative entries are
    counted from the tail ([a < 0 ? a + rank : a]): the selected position is
    not negative and the shape has an extent there. *)
Theorem accepted_axis_selects_dimension ctx ctx' dx (a : Z) :
  InferShape ctx = Ok ctx' →
  input_desc ctx "X" = Some dx →
  var_type dx = LOD_TENSOR →
  a ∈ ctx_axis ctx →
  let k := (if (a <? 0)%Z then a + DDim_size (var_dims dx) else a)%Z in
  (0 ≤ k)%Z ∧ is_Some (var_dims dx !! Z.to_nat k).
Proof.
  intros Hrun HX Hty Ha k.
  destruct (output_desc ctx "Out") as [dout|] eqn:HOut; cycle 1.
  { rewrite InferShape_unbound in Hrun; [done|].
    right. by apply HasOutput_false. }
  rewrite (InferShape_bound ctx dx dout HX HOut) in Hrun.
  rewrite bool_decide_eq_false_2 in Hrun by (rewrite Hty; discriminate).
  destruct (bool_decide (ctx_axis ctx = [])); [done|].
  case_bool_decide as Hall; [|done].
  rewrite Forall_forall in Hall. specialize (Hall a Ha). cbn in Hall.
  unfold DDim_size in *. subst k.
  destruct (Z.ltb_spec a 0); (split; [lia|]);
    apply lookup_lt_is_Some_2; lia.
Qed.

Lemma accepted_axis_selects_dimension_witness :
  (0 ≤ -1 + 2)%Z ∧ is_Some ([2; 3]%Z !! Z.to_nat (-1 + 2)).
Proof.
  assert (Hrun : InferShape (bound_ctx LOD_TENSOR [2; 3]%Z [-1]%Z false)
                 = Ok (shaped_ctx LOD_TENSOR [2; 3]%Z [-1]%Z false))
    by (vm_compute; reflexivity).
  apply (accepted_axis_selects_dimension _ _ (x_desc LOD_TENSOR [2; 3]%Z)
           (-1)%Z Hrun); [reflexivity | reflexivity |].
  apply list_elem_of_singleton. reflexivity.
Defined.

End InferShapeVerdict.

(** ** Variable-type inference, further *)

Section VarTypeInferenceEffects.
Import Framework ReverseOp Scenarios MoreScenarios.
Implicit Types (ctx : InferVarTypeContext) (dx dout : VarDesc).

Lemma vt_input_desc_Some ctx name d :
  vt_input_desc ctx name = Some d ↔
  ∃ v, slot_var (vt_inputs ctx) name = Some v ∧ vt_vars ctx !! v = Some d.
Proof. unfold vt_input_desc. by rewrite bind_Some. Qed.

Lemma vt_output_desc_Some ctx name d :
  vt_output_desc ctx name = Some d ↔
  ∃ v, slot_var (vt_outputs ctx) name = Some v ∧ vt_vars ctx !! v = Some d.
Proof. unfold vt_output_desc. by rewrite bind_Some. Qed.

(** The descriptor [Out] ends up with: kind and dtype of [X], the rest its
    own. *)
Lemma VarTypeInference_bound ctx dx v dout :
  vt_input_desc ctx "X" = Some dx →
  slot_var (vt_outputs ctx) "Out" = Some v →
  vt_vars ctx !! v = Some dout →
  ReverseOpVarTypeInference ctx =
    Ok {| vt_inputs := vt_inputs ctx; vt_outputs := vt_outputs ctx;
          vt_vars :=
            <[v := {| var_type := var_type dx; var_dtype := var_dtype dx;
                      var_dims := var_dims dout;
                      var_lod_level := var_lod_level dout |}]>
              (vt_vars ctx) |}.
Proof.
  intros HX Hv Hd.
  pose proof (dtype_after_SetType ctx dx v dout HX Hd) as Hdtype.
  unfold ReverseOpVarTypeInference, GetInputType, GetInputDataType,
    SetOutputType, SetOutputDataType.
  rewrite HX, bind_Ok, (vt_update_output_bound ctx "Out" v dout _ Hv Hd), bind_Ok.
  destruct (vt_input_desc {| vt_inputs := _ |} "X") as [dx'|]; [|done].
  cbn in Hdtype. injection Hdtype as Hdtype. rewrite bind_Ok.
  erewrite vt_update_output_bound;
    [|exact Hv|cbn [vt_vars]; apply lookup_insert_eq].
  cbn [vt_inputs vt_outputs vt_vars]. by rewrite insert_insert_eq, Hdtype.
Qed.

Lemma VarTypeInference_unbound ctx :
  vt_input_desc ctx "X" = None ∨ vt_output_desc ctx "Out" = None →
  ReverseOpVarTypeInference ctx = Raise MissingBinding.
Proof.
  intros Hunbound.
  unfold ReverseOpVarTypeInference, GetInputType, SetOutputType,
    vt_update_output.
  destruct (vt_input_desc ctx "X") as [dx|] eqn:HX; [|done].
  destruct Hunbound as [|HOut]; [done|]. rewrite bind_Ok.
  unfold vt_output_desc in HOut.
  destruct (slot_var (vt_outputs ctx) "Out") as [v|]; [|done].
  cbn in HOut. by rewrite HOut.
Qed.

(** X8. A successful variable-type inference never changes the descriptor
    of [X], also when [X] and [Out] name the same variable; afterwards [Out]
    and [X] agree on variant kind and dtype; and running it again on its own
    result returns that result. *)
Theorem var_type_inference_idempotent ctx ctx' :
  ReverseOpVarTypeInference ctx = Ok ctx' →
  vt_input_desc ctx' "X" = vt_input_desc ctx "X"
  ∧ (∃ dx dout', vt_input_desc ctx' "X" = Some dx
                 ∧ vt_output_desc ctx' "Out" = Some dout'
                 ∧ var_type dout' = var_type dx
                 ∧ var_dtype dout' = var_dtype dx)
  ∧ ReverseOpVarTypeInference ctx' = Ok ctx'.
Proof.
  intros Hrun.
  destruct (vt_input_desc ctx "X") as [dx|] eqn:HX; cycle 1.
  { rewrite VarTypeInference_unbound in Hrun; [done | by left]. }
  destruct (vt_output_desc ctx "Out") as [dout|] eqn:HOut; cycle 1.
  { rewrite VarTypeInference_unbound in Hrun; [done | by right]. }
  apply vt_output_desc_Some in HOut as (v & Hv & Hd).
  rewrite (VarTypeInference_bound ctx dx v dout HX Hv Hd) in Hrun.
  injection Hrun as <-.
  set (dout' := {| var_type := var_type dx; var_dtype := var_dtype dx;
                   var_dims := var_dims dout;
                   var_lod_level := var_lod_level dout |}).
  set (ctx' := {| vt_inputs := vt_inputs ctx; vt_outputs := vt_outputs ctx;
                  vt_vars := <[v := dout']> (vt_vars ctx) |}).
  assert (HX' : vt_input_desc ctx' "X" = Some dx).
  { apply vt_input_desc_Some in HX as (x & Hx & Hdx).
    apply vt_input_desc_Some. exists x. split; [done|]. cbn.
    destruct (decide (v = x)) as [->|Hne].
    - rewrite lookup_insert_eq. rewrite Hd in Hdx. injection Hdx as ->.
      subst dout'. by destruct dx.
    - by rewrite lookup_insert_ne. }
  assert (Hd' : vt_vars ctx' !! v = Some dout') by apply lookup_insert_eq.
  split_and!.
  - done.
  - exists dx, dout'. split_and!; try done.
    apply vt_output_desc_Some. by exists v.
  - rewrite (VarTypeInference_bound ctx' dx v dout' HX' Hv Hd').
    subst ctx'. cbn. by rewrite insert_insert_eq.
Qed.

Lemma var_type_inference_idempotent_witness :
  ReverseOpVarTypeInference inplace_vt_ctx = Ok inplace_vt_ctx
  ∧ vt_input_desc inplace_vt_ctx "X"
    = Some {| var_type := LOD_TENSOR_ARRAY; var_dtype := INT64;
              var_dims := [4%Z]; var_lod_level := 2 |}.
Proof.
  assert (Hrun : ReverseOpVarTypeInference inplace_vt_ctx = Ok inplace_vt_ctx)
    by (vm_compute; reflexivity).
  destruct (var_type_inference_idempotent _ _ Hrun) as (_ & _ & Hagain).
  split; [exact Hagain | reflexivity].
Defined.


End VarTypeInferenceEffects.

(** ** Gradient maker, further *)

Section GradMakerEffects.
Import Framework ReverseOp ReverseOpMaker Scenarios MoreScenarios.
Context {Attribute : Type}.
Implicit Types (this : SingleGradOpMaker Attribute)
  (grad_op : OpDesc Attribute).

(** What [Apply] returns on any node, when the forward node carries
    [axis]. *)
Lemma Apply_axis this grad_op (axis : Attribute) :
  GetAttr this "axis" = Some axis →
  Apply this grad_op =
    Some {| op_type := "reverse";
            op_inputs := <["X" := OutputGrad this "Out"]> (op_inputs grad_op);
            op_outputs := <["Out" := InputGrad this "X"]> (op_outputs grad_op);
            op_attrs := <["axis" := axis]> (op_attrs grad_op) |}.
Proof. intros Haxis. unfold Apply. by rewrite Haxis. Qed.

Lemma Apply_no_axis this grad_op :
  GetAttr this "axis" = None → Apply this grad_op = None.
Proof. intros Haxis. unfold Apply. by rewrite Haxis. Qed.

(** X10. The backward node depends on the forward node only through the
    gradient of its output [Out], the gradient slot of its input [X] and its
    [axis] attribute: the forward type, the forward tensors themselves and
    all other attributes are never read, so the backward pass keeps no
    forward tensor alive. *)
Theorem grad_maker_reads_only_gradients this1 this2 :
  OutputGrad this1 "Out" = OutputGrad this2 "Out" →
  InputGrad this1 "X" = InputGrad this2 "X" →
  GetAttr this1 "axis" = GetAttr this2 "axis" →
  GradOpMaker_call this1 = GradOpMaker_call this2.
Proof.
  intros HOut HX Haxis. unfold GradOpMaker_call.
  destruct (GetAttr this2 "axis") as [axis|] eqn:H2.
  - by rewrite (Apply_axis this1 _ axis Haxis), (Apply_axis this2 _ axis H2),
      HOut, HX.
  - by rewrite (Apply_no_axis this1 _ Haxis), (Apply_no_axis this2 _ H2).
Qed.

(** X11. [Apply] overwrites whatever the given node held as type, as input
    [X], as output [Out] and as attribute [axis], keeps every other slot and
    attribute of the node, and applying it again changes nothing. *)
Theorem Apply_overwrites this grad_op grad_op' :
  Apply this grad_op = Some grad_op' →
  op_type grad_op' = "reverse"
  ∧ op_inputs grad_op' !! "X" = Some (OutputGrad this "Out")
  ∧ op_outputs grad_op' !! "Out" = Some (InputGrad this "X")
  ∧ op_attrs grad_op' !! "axis" = GetAttr this "axis"
  ∧ (∀ n, n ≠ "X" → op_inputs grad_op' !! n = op_inputs grad_op !! n)
  ∧ (∀ n, n ≠ "Out" → op_outputs grad_op' !! n = op_outputs grad_op !! n)
  ∧ (∀ n, n ≠ "axis" → op_attrs grad_op' !! n = op_attrs grad_op !! n)
  ∧ Apply this grad_op' = Some grad_op'.
Proof.
  intros Hrun.
  destruct (GetAttr this "axis") as [axis|] eqn:Haxis; cycle 1.
  { by rewrite (Apply_no_axis _ _ Haxis) in Hrun. }
  rewrite (Apply_axis _ _ axis Haxis) in Hrun. injection Hrun as <-.
  cbn [op_type op_inputs op_outputs op_attrs].
  split_and!; try done.
  - by rewrite lookup_insert_eq.
  - by rewrite lookup_insert_eq.
  - by rewrite lookup_insert_eq.
  - intros n Hn. by rewrite lookup_insert_ne.
  - intros n Hn. by rewrite lookup_insert_ne.
  - intros n Hn. by rewrite lookup_insert_ne.
  - rewrite (Apply_axis _ _ axis Haxis). cbn [op_inputs op_outputs op_attrs].
    by rewrite !insert_insert_eq.
Qed.

(** X12. The backward node can be differentiated again: a gradient maker
    whose forward node is an emitted backward node emits one [reverse] node
    with the original [axis]. *)
Theorem grad_of_grad_keeps_axis this this' grad_op (axis : Attribute) :
  GetAttr this "axis" = Some axis →
  GradOpMaker_call this = Some [grad_op] →
  fwd_op this' = grad_op →
  GradOpMaker_call this' =
    Some [ {| op_type := "reverse";
              op_inputs := {[ "X" := OutputGrad this' "Out" ]};
              op_outputs := {[ "Out" := InputGrad this' "X" ]};
              op_attrs := {[ "axis" := axis ]} |} ].
Proof.
  intros Haxis Hcall Hfwd. unfold GradOpMaker_call in Hcall.
  rewrite (Apply_axis _ _ axis Haxis) in Hcall. cbn in Hcall.
  injection Hcall as <-.
  assert (Haxis' : GetAttr this' "axis" = Some axis).
  { unfold GetAttr. rewrite Hfwd. cbn [op_attrs]. apply lookup_insert_eq. }
  unfold GradOpMaker_call. rewrite (Apply_axis _ _ axis Haxis'). cbn.
  by rewrite !insert_empty.
Qed.


(** X14. Every node the gradient maker emits is an instance of the
    operator that [ReverseOpMaker::Make] declares and that is registered
    under the type [reverse]: it sets the declared input [X], the declared
    output [Out] and the declared attribute [axis], and nothing else. *)
Theorem grad_node_matches_declaration this grad_op :
  GradOpMaker_call this = Some [grad_op] →
  op_type grad_op = "reverse"
  ∧ input_names (Make new_OpProto) = ["X"]
  ∧ output_names (Make new_OpProto) = ["Out"]
  ∧ attr_names (Make new_OpProto) = ["axis"]
  ∧ instance_of (Make new_OpProto) grad_op.
Proof.
  intros Hcall. unfold GradOpMaker_call in Hcall.
  destruct (GetAttr this "axis") as [axis|] eqn:Haxis; cycle 1.
  { by rewrite (Apply_no_axis _ _ Haxis) in Hcall. }
  rewrite (Apply_axis _ _ axis Haxis) in Hcall. cbn in Hcall.
  injection Hcall as <-.
  by split_and!.
Qed.

End GradMakerEffects.

Section GradMakerScenarios.
Import Framework ReverseOp ReverseOpMaker Scenarios MoreScenarios.

Lemma grad_maker_reads_only_gradients_witness :
  GradOpMaker_call other_forward_maker = GradOpMaker_call forward_maker.
Proof.
  apply (grad_maker_reads_only_gradients other_forward_maker forward_maker);
    reflexivity.
Defined.

Lemma Apply_overwrites_witness :
  Apply forward_maker stale_op
  = Some {| op_type := "reverse";
            op_inputs := {[ "X" := ["out@GRAD"]; "Bias" := ["b"] ]};
            op_outputs := {[ "Out" := ["x@GRAD"] ]};
            op_attrs := {[ "axis" := [0; 2]%Z ]} |}
  ∧ op_inputs {| op_type := "reverse";
                 op_inputs := {[ "X" := ["out@GRAD"]; "Bias" := ["b"] ]};
                 op_outputs := {[ "Out" := ["x@GRAD"] ]};
                 op_attrs := {[ "axis" := [0; 2]%Z ]} |} !! "Bias"
    = op_inputs stale_op !! "Bias".
Proof.
  assert (Hrun : Apply forward_maker stale_op
    = Some {| op_type := "reverse";
              op_inputs := {[ "X" := ["out@GRAD"]; "Bias" := ["b"] ]};
              op_outputs := {[ "Out" := ["x@GRAD"] ]};
              op_attrs := {[ "axis" := [0; 2]%Z ]} |})
    by (vm_compute; reflexivity).
  split; [exact Hrun|].
  destruct (Apply_overwrites _ _ _ Hrun) as (_ & _ & _ & _ & Hkeep & _).
  apply Hkeep. discriminate.
Defined.

Lemma grad_of_grad_keeps_axis_witness :
  GradOpMaker_call backward_maker =
    Some [ {| op_type := "reverse";
              op_inputs := {[ "X" := ["x@GRAD@GRAD"] ]};
              op_outputs := {[ "Out" := ["out@GRAD@GRAD"] ]};
              op_attrs := {[ "axis" := [0; 2]%Z ]} |} ].
Proof.
  apply (grad_of_grad_keeps_axis forward_maker backward_maker backward_op
           [0; 2]%Z).
  - reflexivity.
  - vm_compute. reflexivity.
  - reflexivity.
Defined.

Lemma grad_node_matches_declaration_witness :
  GradOpMaker_call forward_maker = Some [backward_op]
  ∧ instance_of (Make new_OpProto) backward_op.
Proof.
  assert (Hcall : GradOpMaker_call forward_maker = Some [backward_op])
    by (vm_compute; reflexivity).
  split; [exact Hcall|].
  destruct (grad_node_matches_declaration _ _ Hcall) as (_ & _ & _ & _ & H).
  exact H.
Defined.

End GradMakerScenarios.

(** ** Shape inference and variable-type inference on one graph *)

Section InferencePasses.
Import Framework ReverseOp Views Scenarios MoreScenarios.
Implicit Types (ctx : InferShapeContext) (dx dout : VarDesc).

Lemma with_vars_input_desc ctx dx v dout d :
  input_desc ctx "X" = Some dx →
  ctx_vars ctx !! v = Some dout →
  (dx = dout → d = dx) →
  input_desc (with_vars ctx (<[v := d]> (ctx_vars ctx))) "X" = Some dx.
Proof.
  intros HX Hd Hsame.
  apply input_desc_Some in HX as (x & Hx & Hdx).
  apply input_desc_Some. exists x. split; [done|]. cbn [with_vars ctx_vars].
  destruct (decide (v = x)) as [->|Hne].
  - rewrite lookup_insert_eq. f_equal. apply Hsame. congruence.
  - by rewrite lookup_insert_ne.
Qed.

Lemma with_vars_output_desc ctx v d :
  slot_var (ctx_outputs ctx) "Out" = Some v →
  output_desc (with_vars ctx (<[v := d]> (ctx_vars ctx))) "Out" = Some d.
Proof.
  intros Hv. apply output_desc_Some. exists v. split; [done|].
  apply lookup_insert_eq.
Qed.

(** X15. Shape inference and variable-type inference commute on a graph:
    whenever running [InferShape] and then the type inference succeeds,
    running the type inference first and [InferShape] on its result
    succeeds too and leaves the same store; and in that store [Out] has the
    variant kind and the dtype of [X], and also its shape unless [X] is a
    tensor list validated at runtime. *)
Theorem shape_and_type_inference_commute ctx ctx1 vt1 :
  InferShape ctx = Ok ctx1 →
  ReverseOpVarTypeInference (type_inference_view ctx1) = Ok vt1 →
  ∃ vt2 ctx2,
    ReverseOpVarTypeInference (type_inference_view ctx) = Ok vt2
    ∧ InferShape (with_vars ctx (vt_vars vt2)) = Ok ctx2
    ∧ ctx_vars ctx2 = vt_vars vt1
    ∧ ∃ dx dout,
        input_desc ctx2 "X" = Some dx
        ∧ output_desc ctx2 "Out" = Some dout
        ∧ var_type dout = var_type dx
        ∧ var_dtype dout = var_dtype dx
        ∧ (var_type dx = LOD_TENSOR ∨ ctx_runtime ctx = false →
           var_dims dout = var_dims dx).
Proof.
  intros Hshape Htype.
  destruct (output_desc ctx "Out") as [dout|] eqn:HOut; cycle 1.
  { rewrite InferShape_unbound in Hshape; [done|].
    right. by apply HasOutput_false. }
  destruct (input_desc ctx "X") as [dx|] eqn:HX; cycle 1.
  { rewrite InferShape_unbound in Hshape; [done|].
    left. by apply HasInput_false. }
  pose proof HOut as HOut0.
  apply output_desc_Some in HOut0 as (v & Hv & Hd).
  set (d0 := {| var_type := var_type dx; var_dtype := var_dtype dx;
                var_dims := var_dims dout;
                var_lod_level := var_lod_level dout |}).
  set (d1 := {| var_type := var_type dx; var_dtype := var_dtype dx;
                var_dims := var_dims dx;
                var_lod_level := var_lod_level dout |}).
  (* type inference first *)
  pose proof (VarTypeInference_bound (type_inference_view ctx) dx v dout
                HX Hv Hd) as Htype2.
  cbn [type_inference_view vt_inputs vt_outputs vt_vars] in Htype2.
  fold d0 in Htype2.
  assert (HX2 : input_desc (with_vars ctx (<[v := d0]> (ctx_vars ctx))) "X"
                = Some dx).
  { apply (with_vars_input_desc ctx dx v dout d0 HX Hd).
    intros <-. subst d0. by destruct dx. }
  pose proof (with_vars_output_desc ctx v d0 Hv) as HOut2.
  rewrite (InferShape_bound ctx dx dout HX HOut) in Hshape.
  pose proof (InferShape_bound _ dx d0 HX2 HOut2) as Hshape2.
  cbn [with_vars ctx_axis ctx_runtime] in Hshape2.
  assert (Hset2 : SetOutputDim (with_vars ctx (<[v := d0]> (ctx_vars ctx)))
                    "Out" (var_dims dx)
                  = Ok (with_vars ctx (<[v := d1]> (ctx_vars ctx)))).
  { erewrite SetOutputDim_bound;
      [|exact Hv|cbn [with_vars ctx_vars]; apply lookup_insert_eq].
    unfold with_vars. cbn. by rewrite insert_insert_eq. }
  assert (Hset1 : SetOutputDim ctx "Out" (var_dims dx) = Ok ctx1 →
                  vt_vars vt1 = <[v := d1]> (ctx_vars ctx)).
  { intros Hset. pose proof (SetOutputDim_input _ _ _ HX Hset) as HX1.
    apply SetOutputDim_Ok_inv in Hset as (v' & dv & Hv' & Hd' & ->).
    assert (v' = v) as -> by congruence.
    assert (dv = dout) as -> by congruence.
    rewrite (VarTypeInference_bound _ dx v (VarDesc_SetShape (var_dims dx) dout))
      in Htype; [| exact HX1 | exact Hv | apply lookup_insert_eq].
    injection Htype as <-. cbn. by rewrite insert_insert_eq. }
  assert (Hfinal1 : ∃ dx' dout',
    input_desc (with_vars ctx (<[v := d1]> (ctx_vars ctx))) "X" = Some dx'
    ∧ output_desc (with_vars ctx (<[v := d1]> (ctx_vars ctx))) "Out"
      = Some dout'
    ∧ var_type dout' = var_type dx' ∧ var_dtype dout' = var_dtype dx'
    ∧ (var_type dx' = LOD_TENSOR ∨ ctx_runtime ctx = false →
       var_dims dout' = var_dims dx')).
  { exists dx, d1. split_and!; try done.
    - apply (with_vars_input_desc ctx dx v dout d1 HX Hd).
      intros <-. subst d1. by destruct dx.
    - by apply with_vars_output_desc. }
  destruct (bool_decide (var_type dx = LOD_TENSOR_ARRAY)) eqn:Hty.
  - destruct (bool_decide (ctx_axis ctx = [0%Z])); [|done].
    destruct (ctx_runtime ctx) eqn:Hrt.
    + injection Hshape as <-.
      rewrite Htype2 in Htype. injection Htype as <-.
      eexists _, _. split_and!; [exact Htype2 | exact Hshape2 | done |].
      exists dx, d0. split_and!; try done.
      apply bool_decide_eq_true_1 in Hty. intros [?|?]; congruence.
    + rewrite Hset2 in Hshape2.
      eexists _, _. split_and!; [exact Htype2 | exact Hshape2 | |done].
      cbn [with_vars ctx_vars]. by rewrite Hset1.
  - destruct (bool_decide (ctx_axis ctx = [])); [done|].
    destruct (bool_decide (Forall _ _)); [|done].
    rewrite Hset2 in Hshape2.
    eexists _, _. split_and!; [exact Htype2 | exact Hshape2 | |done].
    cbn [with_vars ctx_vars]. by rewrite Hset1.
Qed.

Lemma shape_and_type_inference_commute_witness :
  ∃ vt2 ctx2,
    ReverseOpVarTypeInference
      (type_inference_view (bound_ctx LOD_TENSOR [2; 3]%Z [-1]%Z false))
    = Ok vt2
    ∧ InferShape (with_vars (bound_ctx LOD_TENSOR [2; 3]%Z [-1]%Z false)
                    (vt_vars vt2)) = Ok ctx2
    ∧ ctx_vars ctx2
      = {[ "x" := x_desc LOD_TENSOR [2; 3]%Z;
           "out" := {| var_type := LOD_TENSOR; var_dtype := FP32;
                       var_dims := [2; 3]%Z; var_lod_level := 1 |} ]}.
Proof.
  assert (Hshape : InferShape (bound_ctx LOD_TENSOR [2; 3]%Z [-1]%Z false)
                   = Ok (shaped_ctx LOD_TENSOR [2; 3]%Z [-1]%Z false))
    by (vm_compute; reflexivity).
  assert (Htype : ReverseOpVarTypeInference
                    (type_inference_view
                       (shaped_ctx LOD_TENSOR [2; 3]%Z [-1]%Z false))
                  = Ok {| vt_inputs := {[ "X" := ["x"] ]};
                          vt_outputs := {[ "Out" := ["out"] ]};
                          vt_vars :=
                            {[ "x" := x_desc LOD_TENSOR [2; 3]%Z;
                               "out" := {| var_type := LOD_TENSOR;
                                           var_dtype := FP32;
                                           var_dims := [2; 3]%Z;
                                           var_lod_level := 1 |} ]} |})
    by (vm_compute; reflexivity).
  destruct (shape_and_type_inference_commute _ _ _ Hshape Htype)
    as (vt2 & ctx2 & H1 & H2 & H3 & _).
  exists vt2, ctx2. split_and!; [exact H1 | exact H2 | exact H3].
Defined.

End InferencePasses.
